(** * Lane Drift: the simulation core of [src/App.tsx]

    A shallow embedding of the game logic held in the [App] component:
    the lane commands, [startGame], [endGame], [trySpawnItem] and the
    per-frame [tick], followed by the properties of the specification.

    Numbers.  The source computes with JavaScript numbers.  Values that
    are integers by construction (ids, lane indices, scores, the results
    of [Math.floor] and [Math.round], the spawn interval) are modelled in
    [Z]; values that can be fractional (timestamps, vertical positions,
    the speed, the elapsed time, random draws) are modelled as exact
    rationals in [Q].  Rounding of binary64 arithmetic is therefore not
    part of that model; where a property turns on it, the expressions
    concerned are modelled again on binary64 numbers (section "The
    survival bonus in binary64").

    Randomness.  Each call of [Math.random()] is an explicit argument.

    React.  A [useState] cell and a [useRef] cell are both fields of
    [State]; a setter call is an assignment, and every handler runs
    atomically.  The animation-frame handle [rafRef] belongs to the
    driver and is not part of [State]. *)

From Stdlib Require Import ZArith QArith Qabs Qminmax Qround Lqa Lia List Bool
  Sorted Floats.
Import ListNotations.

Open Scope Q_scope.

(** ** JavaScript primitives used by the component *)

Module JS.

(** [a < b] on numbers. *)
Definition ltb (a b : Q) : bool := negb (Qle_bool b a).

(** [a > b] on numbers. *)
Definition gtb (a b : Q) : bool := ltb b a.

(** Truthiness of a number: [0] is falsy. *)
Definition truthy (x : Q) : bool := negb (Qeq_bool x 0).

(** [Math.floor]. *)
Definition floor (x : Q) : Z := Qfloor x.

(** [Math.round]: the nearest integer, halves going up. *)
Definition round (x : Q) : Z := Qfloor (x + (1 # 2)).

End JS.

(** ** Data model *)

Inductive ItemType : Set := obstacle | coin.

Record Item : Set := mkItem {
  id : Z;
  type : ItemType;
  lane : Z;
  y : Q
}.

Inductive GameState : Set := ready | running | gameover.

Definition LANES : Z := 3.
Definition BASE_SPEED : Z := 360.
Definition SPEED_RAMP : Q := 10.
Definition SPAWN_MIN : Z := 360.
Definition SPAWN_MAX : Z := 900.
Definition COIN_CHANCE : Q := 0.25.

Definition CAR_HEIGHT : Q := 52.
Definition ITEM_HEIGHT : Q := 44.

(** The [useState] cells, then the [useRef] cells, of the component. *)
Record State : Type := mkState {
  gameState : GameState;
  laneIndex : Z;
  items : list Item;
  score : Z;
  highScore : Z;
  speed : Z;
  itemsRef : list Item;
  laneRef : Z;
  scoreRef : Z;
  speedRef : Q;
  elapsedRef : Q;
  lastSpawnRef : Q;
  lastTimeRef : Q;
  nextIdRef : Z
}.

(** The component as first mounted. *)
Definition initialState : State :=
  {| gameState := ready; laneIndex := 1; items := []; score := 0;
     highScore := 0; speed := BASE_SPEED;
     itemsRef := []; laneRef := 1; scoreRef := 0;
     speedRef := inject_Z BASE_SPEED; elapsedRef := 0;
     lastSpawnRef := 0; lastTimeRef := 0; nextIdRef := 1 |}.

(** The setter of the [gameState] cell. *)
Definition setGameState (p : GameState) (s : State) : State :=
  {| gameState := p; laneIndex := laneIndex s; items := items s;
     score := score s; highScore := highScore s; speed := speed s;
     itemsRef := itemsRef s; laneRef := laneRef s; scoreRef := scoreRef s;
     speedRef := speedRef s; elapsedRef := elapsedRef s;
     lastSpawnRef := lastSpawnRef s; lastTimeRef := lastTimeRef s;
     nextIdRef := nextIdRef s |}.

(** ** Lane commands *)

Definition clamp (value min max : Z) : Z := Z.max min (Z.min max value).

Definition updateLane (updater : Z -> Z) (s : State) : State :=
  let next := updater (laneIndex s) in
  {| gameState := gameState s; laneIndex := next; items := items s;
     score := score s; highScore := highScore s; speed := speed s;
     itemsRef := itemsRef s; laneRef := next; scoreRef := scoreRef s;
     speedRef := speedRef s; elapsedRef := elapsedRef s;
     lastSpawnRef := lastSpawnRef s; lastTimeRef := lastTimeRef s;
     nextIdRef := nextIdRef s |}.

Definition moveLeft (s : State) : State :=
  updateLane (fun current => clamp (current - 1) 0 (LANES - 1)) s.

Definition moveRight (s : State) : State :=
  updateLane (fun current => clamp (current + 1) 0 (LANES - 1)) s.

(** ** Run lifecycle *)

Definition startGame (s : State) : State :=
  {| gameState := running; laneIndex := 1; items := []; score := 0;
     highScore := highScore s; speed := BASE_SPEED;
     itemsRef := []; laneRef := 1; scoreRef := 0;
     speedRef := inject_Z BASE_SPEED; elapsedRef := 0;
     lastSpawnRef := 0; lastTimeRef := 0; nextIdRef := nextIdRef s |}.

Definition endGame (s : State) : State :=
  {| gameState := gameover; laneIndex := laneIndex s; items := items s;
     score := score s; highScore := Z.max (highScore s) (scoreRef s);
     speed := speed s;
     itemsRef := itemsRef s; laneRef := laneRef s; scoreRef := scoreRef s;
     speedRef := speedRef s; elapsedRef := elapsedRef s;
     lastSpawnRef := lastSpawnRef s; lastTimeRef := lastTimeRef s;
     nextIdRef := nextIdRef s |}.

(** ** Spawn scheduler *)

(** [Array.prototype.sort] with the comparator [(a, b) => a.y - b.y]: a
    stable sort by increasing [y]. *)
Fixpoint insert_by_y (it : Item) (l : list Item) : list Item :=
  match l with
  | [] => [it]
  | h :: t => if Qle_bool (y it) (y h) then it :: l else h :: insert_by_y it t
  end.

Fixpoint sort_by_y (l : list Item) : list Item :=
  match l with
  | [] => []
  | h :: t => insert_by_y h (sort_by_y t)
  end.

(** The head of a list is below everything in it. *)
Definition head_least (l : list Item) : Prop :=
  match l with
  | [] => True
  | m :: _ => forall x, In x l -> y m <= y x
  end.

(** [itemsRef.current.filter(item => item.lane === lane).sort(...)[0]];
    [None] stands for [undefined]. *)
Definition lastInLane (its : list Item) (ln : Z) : option Item :=
  hd_error (sort_by_y (filter (fun item => (lane item =? ln)%Z) its)).

Definition spawnInterval (s : State) : Z :=
  Z.max SPAWN_MIN (SPAWN_MAX - JS.floor (elapsedRef s * 10)).

(** The lane drawn by [Math.floor(Math.random() * LANES)]. *)
Definition spawnLane (rnd : Q) : Z := JS.floor (rnd * inject_Z LANES).

(** The type drawn by [Math.random() < COIN_CHANCE ? 'coin' : 'obstacle']. *)
Definition spawnType (rnd : Q) : ItemType :=
  if JS.ltb rnd COIN_CHANCE then coin else obstacle.

(** [lastInLane && lastInLane.y < ITEM_HEIGHT * 1.6]. *)
Definition laneBlocked (its : list Item) (ln : Z) : bool :=
  match lastInLane its ln with
  | Some it => JS.ltb (y it) (ITEM_HEIGHT * 1.6)
  | None => false
  end.

(** The interval test that opens [trySpawnItem]. *)
Definition spawnTooSoon (timeMs : Q) (s : State) : bool :=
  JS.ltb (timeMs - lastSpawnRef s) (inject_Z (spawnInterval s)).

(** The item a successful attempt creates. *)
Definition spawnedItem (rnd1 rnd2 : Q) (s : State) : Item :=
  {| id := nextIdRef s; type := spawnType rnd2; lane := spawnLane rnd1;
     y := - ITEM_HEIGHT |}.

(** [rnd1] and [rnd2] are the two draws of [Math.random()], in order. *)
Definition trySpawnItem (rnd1 rnd2 : Q) (timeMs : Q) (s : State) : State :=
  if spawnTooSoon timeMs s then s
  else
    let ln := spawnLane rnd1 in
    if laneBlocked (itemsRef s) ln then s
    else
      let item := {| id := nextIdRef s; type := spawnType rnd2;
                     lane := ln; y := - ITEM_HEIGHT |} in
      let its := itemsRef s ++ [item] in
      {| gameState := gameState s; laneIndex := laneIndex s; items := its;
         score := score s; highScore := highScore s; speed := speed s;
         itemsRef := its; laneRef := laneRef s; scoreRef := scoreRef s;
         speedRef := speedRef s; elapsedRef := elapsedRef s;
         lastSpawnRef := timeMs; lastTimeRef := lastTimeRef s;
         nextIdRef := (nextIdRef s + 1)%Z |}.

(** ** The simulation step *)

Section Simulation.

(** The window height reported by [useWindowDimensions]. *)
Variable height : Q.

Definition carY : Q := height - 140.
Definition carTop : Q := carY - CAR_HEIGHT / 2.
Definition carBottom : Q := carY + CAR_HEIGHT / 2.

(** The three accumulators of the loop over [itemsRef.current]. *)
Record Sweep : Type := mkSweep {
  updatedItems : list Item;
  hitObstacle : bool;
  scoreDelta : Z
}.

Definition sweepStart : Sweep :=
  {| updatedItems := []; hitObstacle := false; scoreDelta := 0 |}.

(** One iteration of [for (const item of itemsRef.current)]. *)
Definition sweepItem (playerLane : Z) (distance : Q)
    (acc : Sweep) (item : Item) : Sweep :=
  let nextY := y item + distance in
  if JS.gtb nextY (height + ITEM_HEIGHT) then acc
  else
    let itemTop := nextY in
    let itemBottom := nextY + ITEM_HEIGHT in
    let sameLane := (lane item =? playerLane)%Z in
    let overlaps := JS.gtb itemBottom carTop && JS.ltb itemTop carBottom in
    if sameLane && overlaps then
      match type item with
      | obstacle =>
          {| updatedItems := updatedItems acc; hitObstacle := true;
             scoreDelta := scoreDelta acc |}
      | coin =>
          {| updatedItems := updatedItems acc;
             hitObstacle := hitObstacle acc;
             scoreDelta := (scoreDelta acc + 120)%Z |}
      end
    else
      {| updatedItems :=
           updatedItems acc ++
           [ {| id := id item; type := type item; lane := lane item;
                y := nextY |} ];
         hitObstacle := hitObstacle acc;
         scoreDelta := scoreDelta acc |}.

(** [delta]: seconds since the previous frame; a falsy [lastTimeRef] is
    first replaced by the current timestamp. *)
Definition frameDelta (timeMs : Q) (s : State) : Q :=
  let lastTime :=
    if JS.truthy (lastTimeRef s) then lastTimeRef s else timeMs in
  let deltaMs := timeMs - lastTime in
  deltaMs / 1000.

Definition nextSpeed (timeMs : Q) (s : State) : Q :=
  speedRef s + SPEED_RAMP * frameDelta timeMs s.

Definition frameDistance (timeMs : Q) (s : State) : Q :=
  nextSpeed timeMs s * frameDelta timeMs s.

(** The whole loop of the frame. *)
Definition sweep (timeMs : Q) (s : State) : Sweep :=
  fold_left (sweepItem (laneRef s) (frameDistance timeMs s))
            (itemsRef s) sweepStart.

(** The score written by the frame: the coin bonus, guarded by
    [if (scoreDelta)], then the survival bonus. *)
Definition frameScore (timeMs : Q) (s : State) : Z :=
  let sd := scoreDelta (sweep timeMs s) in
  ((if (sd =? 0)%Z then scoreRef s else scoreRef s + sd)
   + JS.floor (frameDelta timeMs s * 30))%Z.

(** [tick] from its first assignment down to [setScore], that is, up to
    the call of [trySpawnItem]. *)
Definition tickUpdate (timeMs : Q) (s : State) : State :=
  let sw := sweep timeMs s in
  {| gameState := gameState s; laneIndex := laneIndex s;
     items := updatedItems sw; score := frameScore timeMs s;
     highScore := highScore s; speed := JS.round (nextSpeed timeMs s);
     itemsRef := updatedItems sw; laneRef := laneRef s;
     scoreRef := frameScore timeMs s;
     speedRef := nextSpeed timeMs s;
     elapsedRef := elapsedRef s + frameDelta timeMs s;
     lastSpawnRef := lastSpawnRef s; lastTimeRef := timeMs;
     nextIdRef := nextIdRef s |}.

(** The frame callback. *)
Definition tick (rnd1 rnd2 : Q) (timeMs : Q) (s : State) : State :=
  match gameState s with
  | running =>
      let s1 := tickUpdate timeMs s in
      let s2 := trySpawnItem rnd1 rnd2 timeMs s1 in
      if hitObstacle (sweep timeMs s) then endGame s2 else s2
  | _ => s
  end.

(** ** The loop of [tick], item by item

    The outcome of one iteration as predicates on the item: it is
    dropped once past the bottom edge, it ends the run or is collected
    when it touches the car, and it is kept, moved down, otherwise. *)

Definition advance (distance : Q) (item : Item) : Item :=
  {| id := id item; type := type item; lane := lane item;
     y := y item + distance |}.

Definition offscreen (distance : Q) (item : Item) : bool :=
  JS.gtb (y item + distance) (height + ITEM_HEIGHT).

Definition touches (playerLane : Z) (distance : Q) (item : Item) : bool :=
  (lane item =? playerLane)%Z
  && (JS.gtb (y item + distance + ITEM_HEIGHT) carTop
      && JS.ltb (y item + distance) carBottom).

Definition isObstacle (item : Item) : bool :=
  match type item with obstacle => true | coin => false end.

Definition kept (playerLane : Z) (distance : Q) (item : Item) : bool :=
  negb (offscreen distance item) && negb (touches playerLane distance item).

Definition fatal (playerLane : Z) (distance : Q) (item : Item) : bool :=
  negb (offscreen distance item) && touches playerLane distance item
  && isObstacle item.

Definition collected (playerLane : Z) (distance : Q) (item : Item) : bool :=
  negb (offscreen distance item) && touches playerLane distance item
  && negb (isObstacle item).

(** The coins picked up by the frame at [timeMs]. *)
Definition coinsCollected (timeMs : Q) (s : State) : list Item :=
  filter (collected (laneRef s) (frameDistance timeMs s)) (itemsRef s).

(** ** Sessions: commands and frames in the order they are handled *)

Inductive Event : Type :=
| Frame (rnd1 rnd2 : Q) (timeMs : Q)
| MoveLeft
| MoveRight
| Start.

Definition handle (s : State) (e : Event) : State :=
  match e with
  | Frame rnd1 rnd2 timeMs => tick rnd1 rnd2 timeMs s
  | MoveLeft => moveLeft s
  | MoveRight => moveRight s
  | Start => startGame s
  end.

Definition play (evs : list Event) (s : State) : State :=
  fold_left handle evs s.

(** The timestamps the driver passes to the frames of a session. *)
Fixpoint timestamps (evs : list Event) : list Q :=
  match evs with
  | [] => []
  | Frame _ _ timeMs :: evs' => timeMs :: timestamps evs'
  | _ :: evs' => timestamps evs'
  end.

(** A session that stays within one run: no start command. *)
Definition isStart (e : Event) : bool :=
  match e with Start => true | _ => false end.

Definition singleRun (evs : list Event) : Prop :=
  Forall (fun e => isStart e = false) evs.

(** States the component can be in. *)
Inductive reachable : State -> Prop :=
| reachable_init : reachable initialState
| reachable_step s e : reachable s -> reachable (handle s e).

(** Ids are assigned once: those in use are distinct and below the
    counter [nextIdRef]. *)
Definition fresh_ids (s : State) : Prop :=
  NoDup (map id (itemsRef s))
  /\ Forall (fun it => (id it < nextIdRef s)%Z) (itemsRef s).

(** Each [useState] cell shows what its [useRef] twin holds. *)
Definition synced (s : State) : Prop :=
  items s = itemsRef s /\ laneIndex s = laneRef s /\ score s = scoreRef s
  /\ speed s = JS.round (speedRef s).

(** The driver's clock has not run ahead of the frames still to come:
    [lastTimeRef] is unset, or no later than each of their timestamps. *)
Definition clock_ok (s : State) (evs : list Event) : Prop :=
  lastTimeRef s == 0 \/ Forall (Qle (lastTimeRef s)) (timestamps evs).

(** Neither the score nor the speed is lower in [b] than in [a]. *)
Definition not_below (a b : State) : Prop :=
  (scoreRef a <= scoreRef b)%Z /\ (score a <= score b)%Z
  /\ speedRef a <= speedRef b /\ (speed a <= speed b)%Z.

End Simulation.

(** ** Sample sessions

    A window 800 units high; both random draws are 0.5, which selects
    the centre lane and an obstacle. *)

(** A run one frame old: the first frame, at 1000 ms, has spawned an
    obstacle above the car. *)
Definition openingRun : State :=
  play 800 [Start; Frame 0.5 0.5 1000] initialState.

(** The next frame comes 1.8 s later and drives that obstacle into the
    car. *)
Definition crashedRun : State := tick 800 0.5 0.5 2800 openingRun.

(** The same opening, except that the second draw, 0.1, makes the
    spawned item a coin. *)
Definition openingCoinRun : State :=
  play 800 [Start; Frame 0.5 0.1 1000] initialState.

(** An obstacle of the centre lane at height [pos]. *)
Definition loneItem (pos : Q) : Item :=
  {| id := 1; type := obstacle; lane := 1; y := pos |}.

(** A run of three frames one second apart, each of which spawns an
    obstacle in the centre lane; [aheadItem] is the oldest of them and
    [behindItem] the next. *)
Definition threeFrameRun : State :=
  play 800 [Frame 0.5 0.5 1000; Frame 0.5 0.5 2000; Frame 0.5 0.5 3000]
    (startGame initialState).

Definition aheadItem : Item := nth 0 (itemsRef threeFrameRun) (loneItem 0).
Definition behindItem : Item := nth 1 (itemsRef threeFrameRun) (loneItem 0).

(** ** Distances from a spawning item

    An item spawns with its top edge at [y = - ITEM_HEIGHT].  How near
    an item already on the road is to it can be measured between the
    boxes or between the top edges. *)




(** ** The survival bonus in binary64

    The expressions of [tick] that yield [delta] and the survival bonus,
    on binary64 numbers with their rounding.  The score is an integer
    well below [2 ^ 53] and stays in [Z]. *)

(** The number a finite binary64 value stands for. *)
Definition f64_value (x : float) : option Q :=
  match Prim2SF x with
  | S754_zero _ => Some 0
  | S754_finite s m e =>
      Some (inject_Z (if s then Z.neg m else Z.pos m) * Qpower 2 e)
  | _ => None
  end.

(** [Math.floor] of a finite binary64 value, as an integer; [None] for
    the infinities and NaN, which [Math.floor] returns as they are. *)
Definition f64_floor (x : float) : option Z :=
  match Prim2SF x with
  | S754_zero _ => Some 0%Z
  | S754_finite s m e => Some (Z.shiftl (if s then Z.neg m else Z.pos m) e)
  | _ => None
  end.

(** Truthiness of a binary64 value: [0], [-0] and NaN are falsy. *)
Definition f64_truthy (x : float) : bool :=
  negb (PrimFloat.eqb x 0%float) && negb (PrimFloat.is_nan x).

(** [delta], from [lastTimeRef.current] and the frame's timestamp. *)
Definition frameDelta64 (lastTimeRef timeMs : float) : float :=
  let lastTime := if f64_truthy lastTimeRef then lastTimeRef else timeMs in
  let deltaMs := (timeMs - lastTime)%float in
  (deltaMs / 1000)%float.

(** [Math.floor(delta * 30)]. *)
Definition survivalBonus64 (delta : float) : option Z :=
  f64_floor (delta * 30)%float.

(** The score after [if (scoreDelta) scoreRef.current += scoreDelta] and
    [scoreRef.current += Math.floor(delta * 30)]. *)
Definition frameScore64 (scoreRef scoreDelta : Z) (delta : float)
    : option Z :=
  match survivalBonus64 delta with
  | Some bonus =>
      Some ((if (scoreDelta =? 0)%Z then scoreRef else scoreRef + scoreDelta)
            + bonus)%Z
  | None => None
  end.

(** Two consecutive frame timestamps a thirtieth of a second apart:
    33.333333333333336 and 66.66666666666667, the binary64 values
    nearest to 100/3 and 200/3. *)
Definition thirdOfHundred : float := 0x1.0aaaaaaaaaaabp+5%float.
Definition twoThirdsOfHundred : float := 0x1.0aaaaaaaaaaabp+6%float.

(** The [delta] of the second of these frames; it prints as
    0.03333333333333333. *)
Definition boundaryDelta : float :=
  frameDelta64 thirdOfHundred twoThirdsOfHundred.

(** ** Gestures

    The two handlers given to [PanResponder.create]; [dx] and [dy] are
    the fields of the gesture state they read. *)

Record Gesture : Set := mkGesture {
  dx : Q;
  dy : Q
}.

Definition onMoveShouldSetPanResponder (gesture : Gesture) : bool :=
  JS.gtb (Qabs (dx gesture)) 10 && JS.ltb (Qabs (dy gesture)) 30.

Definition onPanResponderRelease (gesture : Gesture) (s : State) : State :=
  if JS.gtb (dx gesture) 40 then moveRight s
  else if JS.ltb (dx gesture) (-40) then moveLeft s
  else s.

(** ** Layout

    Where the component draws the road, the items and the car, from the
    window width reported by [useWindowDimensions]. *)

Definition CAR_WIDTH : Q := 34.
Definition ITEM_WIDTH : Q := 30.

Section Layout.

Variable width : Q.

Definition roadWidth : Q := Qmin 360 (width * 0.82).
Definition laneWidth : Q := roadWidth / inject_Z LANES.
Definition roadLeft : Q := (width - roadWidth) / 2.

(** The [left] style of an item of lane [ln], and its [top]. *)
Definition itemLeft (ln : Z) : Q :=
  roadLeft + inject_Z ln * laneWidth + (laneWidth - ITEM_WIDTH) / 2.

(** The [left] style of the car in lane [ln]. *)
Definition carLeft (ln : Z) : Q :=
  roadLeft + inject_Z ln * laneWidth + (laneWidth - CAR_WIDTH) / 2.

(** The drawn boxes of an item of lane [a] and of the car in lane [b]
    share some horizontal extent. *)
Definition drawnOverlap (a b : Z) : Prop :=
  itemLeft a < carLeft b + CAR_WIDTH /\ carLeft b < itemLeft a + ITEM_WIDTH.

End Layout.

(** ** Predicates on sessions and states *)

(** The first draw of every frame is a value of [Math.random()]: at
    least 0 and below 1. *)
Definition drawInRange (e : Event) : Prop :=
  match e with
  | Frame rnd1 _ _ => 0 <= rnd1 /\ rnd1 < 1
  | _ => True
  end.

Definition validLanes (s : State) : Prop :=
  Forall (fun it => (0 <= lane it <= LANES - 1)%Z) (itemsRef s).

(** The items are listed in the order of their ids, which start at 1
    and are below the counter. *)
Definition ordered_ids (s : State) : Prop :=
  StronglySorted Z.lt (map id (itemsRef s))
  /\ Forall (fun it => (1 <= id it < nextIdRef s)%Z) (itemsRef s)
  /\ (1 <= nextIdRef s)%Z.

(** [b] is [a] except, possibly, for the lane cells. *)
Definition same_but_lane (a b : State) : Prop :=
  gameState b = gameState a /\ items b = items a /\ score b = score a
  /\ highScore b = highScore a /\ speed b = speed a
  /\ itemsRef b = itemsRef a /\ scoreRef b = scoreRef a
  /\ speedRef b = speedRef a /\ elapsedRef b = elapsedRef a
  /\ lastSpawnRef b = lastSpawnRef a /\ lastTimeRef b = lastTimeRef a
  /\ nextIdRef b = nextIdRef a.

(** What a run with a sound clock keeps: the speed is at least the base
    speed, the elapsed time and the score are not negative, and either
    nothing has been spawned yet, or every item has scrolled at least
    [BASE_SPEED] units a second since the last spawn. *)
Definition run_inv (s : State) : Prop :=
  inject_Z BASE_SPEED <= speedRef s
  /\ 0 <= elapsedRef s
  /\ (0 <= scoreRef s)%Z
  /\ ((lastSpawnRef s == 0 /\ itemsRef s = [])
      \/ (inject_Z SPAWN_MIN <= lastSpawnRef s
          /\ lastSpawnRef s <= lastTimeRef s
          /\ Forall (fun it =>
                       - ITEM_HEIGHT
                       + (360 # 1000) * (lastTimeRef s - lastSpawnRef s)
                       <= y it)
                    (itemsRef s))).

(** The least distance an item scrolls between two spawns:
    [BASE_SPEED] for [SPAWN_MIN] ms. *)
Definition SPAWN_GAP : Q := 129.6.

(** The items, oldest first, are each at least [SPAWN_GAP] below the
    next. *)
Definition spaced (its : list Item) : Prop :=
  StronglySorted (fun a b => y b + SPAWN_GAP <= y a) its.

(** The timestamps of the frames of a session that create an item, in
    order.  An item is created exactly when the id counter moves. *)
Fixpoint spawnTimes (height : Q) (evs : list Event) (s : State) : list Q :=
  match evs with
  | [] => []
  | Frame rnd1 rnd2 timeMs :: evs' =>
      let s' := tick height rnd1 rnd2 timeMs s in
      if (nextIdRef s' =? nextIdRef s)%Z then spawnTimes height evs' s'
      else timeMs :: spawnTimes height evs' s'
  | e :: evs' => spawnTimes height evs' (handle height s e)
  end.

(** Two timestamps at least [SPAWN_MIN] ms apart, the earlier first. *)
Definition throttled (a b : Q) : Prop := inject_Z SPAWN_MIN <= b - a.

(** * Properties *)

(** ** Number primitives *)

Lemma ltb_lt (a b : Q) : JS.ltb a b = true <-> a < b.
Proof.
  unfold JS.ltb. rewrite negb_true_iff, <- not_true_iff_false, Qle_bool_iff.
  split; [apply Qnot_le_lt | apply Qlt_not_le].
Qed.

Lemma ltb_ge (a b : Q) : JS.ltb a b = false <-> b <= a.
Proof.
  unfold JS.ltb. rewrite negb_false_iff. apply Qle_bool_iff.
Qed.

Lemma gtb_gt (a b : Q) : JS.gtb a b = true <-> b < a.
Proof. apply ltb_lt. Qed.

Lemma gtb_le (a b : Q) : JS.gtb a b = false <-> a <= b.
Proof. apply ltb_ge. Qed.

Lemma truthy_false (x : Q) : JS.truthy x = false <-> x == 0.
Proof.
  unfold JS.truthy. rewrite negb_false_iff. apply Qeq_bool_iff.
Qed.

Lemma floor_nonneg (x : Q) : 0 <= x -> (0 <= JS.floor x)%Z.
Proof.
  intros Hx. change 0%Z with (Qfloor (inject_Z 0)).
  apply Qfloor_resp_le. exact Hx.
Qed.

Lemma floor_unit (x : Q) : 0 <= x -> x < 1 -> JS.floor x = 0%Z.
Proof.
  intros H0 H1. unfold JS.floor.
  pose proof (Qfloor_le x) as Hlo.
  pose proof (Qlt_floor x) as Hhi.
  assert (Hup : inject_Z (Qfloor x) < inject_Z 1) by (eapply Qle_lt_trans; eauto).
  assert (Hdn : inject_Z 0 < inject_Z (Qfloor x + 1))
    by (eapply Qle_lt_trans; [exact H0 | exact Hhi]).
  rewrite <- Zlt_Qlt in Hup, Hdn. lia.
Qed.

Lemma round_mono (a b : Q) : a <= b -> (JS.round a <= JS.round b)%Z.
Proof.
  intros Hab. apply Qfloor_resp_le. lra.
Qed.

(** ** Binary64 numbers *)

Lemma digits2_pos_bound (m : positive) :
  (Z.pos m < 2 ^ Z.pos (digits2_pos m))%Z.
Proof.
  induction m as [p IH | p IH |]; cbn [digits2_pos].
  - rewrite Pos2Z.inj_succ, Z.pow_succ_r by lia. lia.
  - rewrite Pos2Z.inj_succ, Z.pow_succ_r by lia. lia.
  - reflexivity.
Qed.

Lemma digits2_pos_least (m : positive) :
  (2 ^ (Z.pos (digits2_pos m) - 1) <= Z.pos m)%Z.
Proof.
  induction m as [p IH | p IH |]; cbn [digits2_pos].
  - rewrite Pos2Z.inj_succ.
    replace (Z.succ (Z.pos (digits2_pos p)) - 1)%Z
      with (Z.succ (Z.pos (digits2_pos p) - 1)) by lia.
    rewrite Z.pow_succ_r by lia. lia.
  - rewrite Pos2Z.inj_succ.
    replace (Z.succ (Z.pos (digits2_pos p)) - 1)%Z
      with (Z.succ (Z.pos (digits2_pos p) - 1)) by lia.
    rewrite Z.pow_succ_r by lia. lia.
  - simpl. lia.
Qed.

(** A number below [2 ^ k] has at most [k] binary digits. *)
Lemma Zdigits2_le (x k : Z) :
  (0 <= x < 2 ^ k)%Z -> (0 <= k)%Z -> (Zdigits2 x <= k)%Z.
Proof.
  intros [Hlo Hhi] Hk. destruct x as [| p | p]; simpl; [exact Hk | | lia].
  pose proof (digits2_pos_least p) as Hp.
  destruct (Z.le_gt_cases (Z.pos (digits2_pos p)) k) as [H | H]; [exact H |].
  assert ((2 ^ k <= 2 ^ (Z.pos (digits2_pos p) - 1))%Z)
    by (apply Z.pow_le_mono_r; lia).
  lia.
Qed.

Lemma Zdigits2_bound (x : Z) : (0 <= x)%Z -> (x < 2 ^ Zdigits2 x)%Z.
Proof.
  intros Hx. destruct x as [| p | p]; simpl; [lia | | lia].
  apply digits2_pos_bound.
Qed.

(** A binary64 mantissa has at most 53 bits, and exactly 53 unless the
    number is subnormal. *)
Lemma valid_canonical (s : bool) (m : positive) (e : Z) :
  valid_binary (S754_finite s m e) = true ->
  (Z.pos m < 2 ^ 53 /\ (2 ^ 52 <= Z.pos m \/ e = -1074))%Z.
Proof.
  unfold SpecFloat.valid_binary, bounded, canonical_mantissa, fexp.
  intros H. apply andb_true_iff in H. destruct H as [H _].
  apply Z.eqb_eq in H. unfold prec, emin, emax in H.
  pose proof (digits2_pos_bound m) as Hup.
  pose proof (digits2_pos_least m) as Hlo.
  split.
  - eapply Z.lt_le_trans; [exact Hup |]. apply Z.pow_le_mono_r; lia.
  - destruct (Z.eq_dec e (-1074)) as [-> | Hne]; [right; reflexivity | left].
    replace (Z.pos (digits2_pos m)) with 53%Z in Hlo by lia. exact Hlo.
Qed.

(** One step of the right shift halves the mantissa. *)
Lemma shr_1_m (mrs : shr_record) :
  (0 <= shr_m mrs)%Z -> shr_m (shr_1 mrs) = (shr_m mrs / 2)%Z.
Proof.
  destruct mrs as [m r s]. simpl. intros Hm.
  destruct m as [| [p | p |] | p]; simpl; try reflexivity; try lia.
  - apply Z.div_unique with 1%Z; lia.
  - apply Z.div_unique with 0%Z; lia.
Qed.

Lemma pow2_xO (p : positive) :
  (2 ^ Z.pos p~0 = 2 ^ Z.pos p * 2 ^ Z.pos p)%Z.
Proof.
  rewrite <- Z.pow_add_r by lia. f_equal. lia.
Qed.

Lemma pow2_xI (p : positive) :
  (2 ^ Z.pos p~1 = 2 * (2 ^ Z.pos p * 2 ^ Z.pos p))%Z.
Proof.
  rewrite <- Z.pow_add_r, <- Z.pow_succ_r by lia. f_equal. lia.
Qed.

Lemma iter_pos_shr_m (p : positive) (mrs : shr_record) :
  (0 <= shr_m mrs)%Z ->
  shr_m (iter_pos shr_1 p mrs) = (shr_m mrs / 2 ^ Z.pos p)%Z.
Proof.
  revert mrs. induction p as [p IH | p IH |]; intros mrs Hm; cbn [iter_pos].
  - assert (H1 : (0 <= shr_m (shr_1 mrs))%Z)
      by (rewrite shr_1_m by exact Hm; apply Z.div_pos; lia).
    assert (H2 : (0 <= shr_m (iter_pos shr_1 p (shr_1 mrs)))%Z)
      by (rewrite IH by exact H1; apply Z.div_pos; lia).
    rewrite IH by exact H2. rewrite IH by exact H1. rewrite shr_1_m by exact Hm.
    rewrite !Z.div_div by lia. rewrite pow2_xI. f_equal; lia.
  - assert (H2 : (0 <= shr_m (iter_pos shr_1 p mrs))%Z)
      by (rewrite IH by exact Hm; apply Z.div_pos; lia).
    rewrite IH by exact H2. rewrite IH by exact Hm.
    rewrite Z.div_div by lia. rewrite pow2_xO. reflexivity.
  - apply shr_1_m. exact Hm.
Qed.

(** What [shr_fexp] does to a mantissa that is not negative: the
    exponent is raised to the one the format asks for, and the mantissa
    is divided to match. *)
Lemma shr_fexp_m (mx ex : Z) (l : location) :
  (0 <= mx)%Z ->
  snd (shr_fexp prec emax mx ex l)
  = Z.max (fexp prec emax (Zdigits2 mx + ex)) ex
  /\ shr_m (fst (shr_fexp prec emax mx ex l))
     = (mx / 2 ^ (snd (shr_fexp prec emax mx ex l) - ex))%Z.
Proof.
  intros Hmx. unfold shr_fexp, shr.
  assert (Hrec : shr_m (shr_record_of_loc mx l) = mx)
    by (destruct l as [| []]; reflexivity).
  destruct (fexp prec emax (Zdigits2 mx + ex) - ex)%Z as [| p | p] eqn:E;
    cbn [fst snd].
  - split; [lia |]. rewrite Z.sub_diag, Z.div_1_r. exact Hrec.
  - split; [lia |]. rewrite iter_pos_shr_m by (rewrite Hrec; exact Hmx).
    rewrite Hrec. f_equal. f_equal. lia.
  - split; [lia |]. rewrite Z.sub_diag, Z.div_1_r. exact Hrec.
Qed.

Lemma round_nearest_even_bounds (mx : Z) (l : location) :
  (mx <= round_nearest_even mx l <= mx + 1)%Z.
Proof.
  unfold round_nearest_even. destruct l as [| []]; try lia.
  destruct (Z.even mx); lia.
Qed.

(** A rounded result has the sign that went into the rounding. *)
Lemma binary_round_aux_sign (sx : bool) (mx ex : Z) (lx : location) :
  binary_round_aux prec emax sx mx ex lx = S754_nan
  \/ binary_round_aux prec emax sx mx ex lx = S754_zero sx
  \/ binary_round_aux prec emax sx mx ex lx = S754_infinity sx
  \/ exists m e, binary_round_aux prec emax sx mx ex lx = S754_finite sx m e.
Proof.
  unfold binary_round_aux.
  destruct (shr_fexp prec emax mx ex lx) as [mrs' e'].
  destruct (shr_fexp prec emax
              (round_nearest_even (shr_m mrs') (loc_of_shr_record mrs')) e'
              loc_Exact) as [mrs'' e''].
  destruct (shr_m mrs'') as [| m | m].
  - right. left. reflexivity.
  - destruct (e'' <=? emax - prec)%Z.
    + right. right. right. exists m, e''. reflexivity.
    + right. right. left. reflexivity.
  - left. reflexivity.
Qed.

(** Rounding to nearest of [mx * 2 ^ ex], a positive number below
    [1 - 2 ^ -53]: the result is zero or has an exponent below the one
    of 1, which is [-52]. *)
Lemma binary_round_aux_below_one (mx ex : Z) :
  (0 < mx)%Z ->
  (Zdigits2 mx + ex <= 0)%Z ->
  (ex <= -53)%Z ->
  (mx < 2 ^ (-53 - ex) * (2 ^ 53 - 1))%Z ->
  binary_round_aux prec emax false mx ex loc_Exact = S754_zero false
  \/ exists m' e',
       binary_round_aux prec emax false mx ex loc_Exact
       = S754_finite false m' e'
       /\ (e' <= -53)%Z.
Proof.
  intros Hmx Hdig Hex Hsmall. unfold binary_round_aux.
  destruct (shr_fexp_m mx ex loc_Exact ltac:(lia)) as [He1 Hq].
  destruct (shr_fexp prec emax mx ex loc_Exact) as [mrs1 e1].
  cbn [fst snd] in He1, Hq.
  pose proof (round_nearest_even_bounds (shr_m mrs1) (loc_of_shr_record mrs1))
    as Hr.
  set (m1 := round_nearest_even (shr_m mrs1) (loc_of_shr_record mrs1)) in *.
  pose proof (Zdigits2_bound mx ltac:(lia)) as HD.
  set (D := Zdigits2 mx) in *.
  assert (Hk : (0 <= e1 - ex)%Z) by lia.
  assert (Hpow : (0 < 2 ^ (e1 - ex))%Z) by (apply Z.pow_pos_nonneg; lia).
  assert (Hq0 : (0 <= shr_m mrs1)%Z) by (rewrite Hq; apply Z.div_pos; lia).
  assert (He1le : (e1 <= -53)%Z)
    by (unfold fexp, prec, emin, emax in He1; lia).
  assert (Hqlt : (shr_m mrs1 < 2 ^ 53)%Z).
  { rewrite Hq. apply Z.div_lt_upper_bound; [exact Hpow |].
    rewrite <- Z.pow_add_r by lia.
    eapply Z.lt_le_trans; [exact HD |].
    assert (0 <= D)%Z by (unfold D; destruct mx; simpl; lia).
    apply Z.pow_le_mono_r; [lia |].
    unfold fexp, prec, emin, emax in He1. lia. }
  assert (Hqedge : (e1 = -53 -> shr_m mrs1 < 2 ^ 53 - 1)%Z).
  { intros ->. rewrite Hq. apply Z.div_lt_upper_bound; [exact Hpow |].
    exact Hsmall. }
  destruct (shr_fexp_m m1 e1 loc_Exact ltac:(lia)) as [He2 Hm2].
  destruct (shr_fexp prec emax m1 e1 loc_Exact) as [mrs2 e2].
  cbn [fst snd] in He2, Hm2.
  assert (He2le : (e2 <= -53)%Z).
  { destruct (Z.eq_dec e1 (-53)) as [Heq | Hne].
    - assert (Hd1 : (Zdigits2 m1 <= 53)%Z)
        by (apply Zdigits2_le; [specialize (Hqedge Heq) |]; lia).
      unfold fexp, prec, emin, emax in He2. lia.
    - assert (Hd1 : (Zdigits2 m1 <= 54)%Z).
      { apply Zdigits2_le; [| lia]. split; [lia |].
        change (2 ^ 54)%Z with (2 * 2 ^ 53)%Z. lia. }
      unfold fexp, prec, emin, emax in He2. lia. }
  assert (Hm2pos : (0 <= shr_m mrs2)%Z).
  { rewrite Hm2. apply Z.div_pos; [lia |]. apply Z.pow_pos_nonneg; lia. }
  destruct (shr_m mrs2) as [| m' | m'].
  - left. reflexivity.
  - right. exists m', e2.
    assert (Hle : (e2 <=? emax - prec)%Z = true)
      by (apply Z.leb_le; unfold emax, prec; lia).
    rewrite Hle. split; [reflexivity | exact He2le].
  - lia.
Qed.

Lemma Prim2SF_zero : Prim2SF 0 = S754_zero false.
Proof. vm_compute. reflexivity. Qed.

Lemma Prim2SF_one : Prim2SF 1 = S754_finite false 4503599627370496 (-52).
Proof. vm_compute. reflexivity. Qed.

Lemma Prim2SF_thirty :
  Prim2SF 30 = S754_finite false 8444249301319680 (-48).
Proof. vm_compute. reflexivity. Qed.

(** [1 / 30] evaluates to the binary64 number
    [4803839602528529 * 2 ^ -57]. *)
Lemma Prim2SF_thirtieth :
  Prim2SF (1 / 30) = S754_finite false 4803839602528529 (-57).
Proof. vm_compute. reflexivity. Qed.

(** [Math.floor] is 0 on the binary64 values from 0 up to, and not
    including, 1. *)
Lemma floor_unit64 (x : float) :
  (0 <=? x)%float = true -> (x <? 1)%float = true -> f64_floor x = Some 0%Z.
Proof.
  rewrite leb_spec, ltb_spec. unfold f64_floor.
  pose proof (Prim2SF_valid x) as Hv.
  rewrite Prim2SF_zero, Prim2SF_one.
  destruct (Prim2SF x) as [s | s | | s m e].
  - reflexivity.
  - destruct s; cbv [SFleb SFltb SFcompare]; discriminate.
  - cbv [SFleb SFcompare]. discriminate.
  - destruct s; [cbv [SFleb SFcompare]; discriminate |].
    intros _ Hlt. apply valid_canonical in Hv. destruct Hv as [Hv _].
    f_equal.
    assert (He : (e < -52 \/ (e = -52 /\ Z.pos m < 2 ^ 52))%Z).
    { cbv [SFltb SFcompare] in Hlt.
      destruct (Z.compare_spec e (-52)) as [-> | Hl | Hg].
      - right. split; [reflexivity |].
        destruct (Pos.compare_cont Eq m 4503599627370496) eqn:E;
          try discriminate.
        assert (Hm : (m < 4503599627370496)%positive)
          by (apply Pos.compare_lt_iff; exact E).
        change (2 ^ 52)%Z with (Z.pos 4503599627370496).
        exact Hm.
      - left. exact Hl.
      - discriminate. }
    rewrite Z.shiftl_div_pow2 by lia.
    apply Z.div_small. split; [lia |].
    destruct He as [He | [-> Hm]]; [| exact Hm].
    eapply Z.lt_le_trans; [exact Hv |].
    apply Z.pow_le_mono_r; lia.
Qed.

(** The product by 30 of a value that is not negative is not negative,
    when it is below 1. *)
Lemma mul_nonneg64 (d : float) :
  (0 <=? d)%float = true -> (d * 30 <? 1)%float = true ->
  (0 <=? d * 30)%float = true.
Proof.
  rewrite !leb_spec, ltb_spec, mul_spec.
  rewrite Prim2SF_zero, Prim2SF_one, Prim2SF_thirty.
  destruct (Prim2SF d) as [s | s | | s m e].
  - intros _ _. reflexivity.
  - destruct s; [cbv [SFleb SFcompare]; discriminate |].
    intros _ H. cbv [SF64mul SFmul xorb SFltb SFcompare] in H. discriminate.
  - cbv [SFleb SFcompare]. discriminate.
  - destruct s; [cbv [SFleb SFcompare]; discriminate |]. intros _.
    cbv [SF64mul SFmul xorb].
    destruct (binary_round_aux_sign false
                (Z.pos (m * 8444249301319680)) (e + -48) loc_Exact)
      as [-> | [-> | [-> | (m' & e' & ->)]]].
    + cbv [SFltb SFcompare]. discriminate.
    + reflexivity.
    + cbv [SFltb SFcompare]. discriminate.
    + intros _. reflexivity.
Qed.

(** The product by 30 of a value from 0 up to, and not including, the
    value of [1 / 30] is below 1: it is at most [1 - 2 ^ -52] before
    rounding, and rounding does not take it to 1. *)
Lemma mul30_below_one (d : float) :
  (0 <=? d)%float = true -> (d <? 1 / 30)%float = true ->
  (d * 30 <? 1)%float = true.
Proof.
  rewrite leb_spec, !ltb_spec, mul_spec.
  pose proof (Prim2SF_valid d) as Hv.
  rewrite Prim2SF_zero, Prim2SF_one, Prim2SF_thirty, Prim2SF_thirtieth.
  destruct (Prim2SF d) as [s | s | | s m e].
  - intros _ _. reflexivity.
  - destruct s; cbv [SFleb SFltb SFcompare]; discriminate.
  - cbv [SFleb SFcompare]. discriminate.
  - destruct s; [cbv [SFleb SFcompare]; discriminate |].
    intros _ Hlt. destruct (valid_canonical _ _ _ Hv) as [Hup Hnorm].
    assert (He : (e <= -58
                  \/ (e = -57 /\ Z.pos m < 4803839602528529))%Z).
    { cbv [SFltb SFcompare] in Hlt.
      destruct (Z.compare_spec e (-57)) as [-> | Hl | Hg].
      - right. split; [reflexivity |].
        destruct (Pos.compare_cont Eq m 4803839602528529) eqn:E;
          try discriminate.
        apply Pos.compare_lt_iff in E. exact E.
      - left. lia.
      - discriminate. }
    cbv [SF64mul SFmul xorb].
    assert (Hmx : Z.pos (m * 8444249301319680)
                  = (Z.pos m * 8444249301319680)%Z) by reflexivity.
    assert (Hpos : (0 < Z.pos (m * 8444249301319680))%Z) by lia.
    assert (Hex : (e + -48 <= -53)%Z) by lia.
    assert (Hdig : (Zdigits2 (Z.pos (m * 8444249301319680)) + (e + -48)
                    <= 0)%Z).
    { rewrite Hmx. destruct He as [He | [-> Hm]].
      - assert (Hd : (Zdigits2 (Z.pos m * 8444249301319680) <= 106)%Z).
        { apply Zdigits2_le; [| lia]. split; [lia |].
          change (2 ^ 106)%Z with (2 ^ 53 * 2 ^ 53)%Z. lia. }
        lia.
      - assert (Hd : (Zdigits2 (Z.pos m * 8444249301319680) <= 105)%Z).
        { apply Zdigits2_le; [| lia]. split; [lia |].
          change (2 ^ 105)%Z with (2 ^ 57 * 2 ^ 48)%Z. lia. }
        lia. }
    assert (Hsmall : (Z.pos (m * 8444249301319680)
                      < 2 ^ (-53 - (e + -48)) * (2 ^ 53 - 1))%Z).
    { rewrite Hmx. destruct He as [He | [-> Hm]].
      - assert (Hp : (2 ^ 53 <= 2 ^ (-53 - (e + -48)))%Z)
          by (apply Z.pow_le_mono_r; lia).
        lia.
      - change (-53 - (-57 + -48))%Z with 52%Z. lia. }
    destruct (binary_round_aux_below_one _ _ Hpos Hdig Hex Hsmall)
      as [-> | (m' & e' & -> & He')]; [reflexivity |].
    cbv [SFltb SFcompare].
    destruct (Z.compare_spec e' (-52)); try lia; reflexivity.
Qed.

(** ** Items *)

Lemma Item_eq_dec (a b : Item) : {a = b} + {a <> b}.
Proof.
  decide equality.
  - decide equality; [apply Pos.eq_dec | apply Z.eq_dec].
  - apply Z.eq_dec.
  - decide equality.
  - apply Z.eq_dec.
Qed.

Lemma GameState_eq_dec (a b : GameState) : {a = b} + {a <> b}.
Proof. decide equality. Qed.

(** ** The sort of [trySpawnItem] *)

Lemma insert_by_y_In (it x : Item) (l : list Item) :
  In x (insert_by_y it l) <-> x = it \/ In x l.
Proof.
  induction l as [| h t IH]; simpl.
  - intuition.
  - destruct (Qle_bool (y it) (y h)); simpl; rewrite ?IH; intuition.
Qed.

Lemma sort_by_y_In (x : Item) (l : list Item) :
  In x (sort_by_y l) <-> In x l.
Proof.
  induction l as [| h t IH]; simpl.
  - tauto.
  - rewrite insert_by_y_In, IH. intuition.
Qed.

Lemma insert_by_y_least (it : Item) (l : list Item) :
  head_least l -> head_least (insert_by_y it l).
Proof.
  destruct l as [| h t]; simpl.
  - intros _ x [<- | []]. apply Qle_refl.
  - intros Hl. destruct (Qle_bool (y it) (y h)) eqn:E.
    + apply Qle_bool_iff in E. intros x [<- | Hx].
      * apply Qle_refl.
      * eapply Qle_trans; [exact E | apply Hl; exact Hx].
    + assert (Hlt : y h < y it).
      { apply Qnot_le_lt. rewrite <- Qle_bool_iff, E. discriminate. }
      intros x [<- | Hx].
      * apply Qle_refl.
      * apply insert_by_y_In in Hx. destruct Hx as [-> | Hx].
        -- apply Qlt_le_weak, Hlt.
        -- apply Hl. right. exact Hx.
Qed.

Lemma sort_by_y_least (l : list Item) : head_least (sort_by_y l).
Proof.
  induction l as [| h t IH]; simpl.
  - exact I.
  - apply insert_by_y_least, IH.
Qed.

(** [lastInLane] is an item of the lane with the smallest [y] there. *)
Lemma lastInLane_Some (its : list Item) (ln : Z) (m : Item) :
  lastInLane its ln = Some m ->
  In m its /\ lane m = ln
  /\ forall x, In x its -> lane x = ln -> y m <= y x.
Proof.
  unfold lastInLane. intros Hm.
  pose proof (sort_by_y_least (filter (fun item => (lane item =? ln)%Z) its))
    as Hleast.
  pose proof (sort_by_y_In m (filter (fun item => (lane item =? ln)%Z) its))
    as Hin.
  destruct (sort_by_y (filter (fun item => (lane item =? ln)%Z) its))
    as [| m' rest] eqn:E; simpl in Hm; [discriminate |].
  injection Hm as ->.
  assert (Hm : In m (filter (fun item => (lane item =? ln)%Z) its))
    by (apply Hin; left; reflexivity).
  apply filter_In in Hm. destruct Hm as [Hm Hl]. apply Z.eqb_eq in Hl.
  repeat split; auto.
  intros x Hx Hlx. apply Hleast. rewrite <- E. apply sort_by_y_In.
  apply filter_In. split; [exact Hx | apply Z.eqb_eq; exact Hlx].
Qed.

Lemma lastInLane_None (its : list Item) (ln : Z) :
  lastInLane its ln = None <-> forall x, In x its -> lane x <> ln.
Proof.
  unfold lastInLane.
  pose proof (fun x =>
    sort_by_y_In x (filter (fun item => (lane item =? ln)%Z) its)) as Hin.
  destruct (sort_by_y (filter (fun item => (lane item =? ln)%Z) its))
    as [| m rest]; simpl.
  - split; [| reflexivity]. intros _ x Hx Hl.
    apply (Hin x). apply filter_In. split; [exact Hx | apply Z.eqb_eq, Hl].
  - split; [discriminate |]. intros Hnone. exfalso.
    assert (Hm : In m (filter (fun item => (lane item =? ln)%Z) its))
      by (apply Hin; left; reflexivity).
    apply filter_In in Hm. destruct Hm as [Hm Hl]. apply Z.eqb_eq in Hl.
    exact (Hnone m Hm Hl).
Qed.

(** A lane is blocked exactly when it holds an item above the line
    [ITEM_HEIGHT * 1.6]. *)
Lemma laneBlocked_true (its : list Item) (ln : Z) :
  laneBlocked its ln = true <->
  exists x, In x its /\ lane x = ln /\ y x < ITEM_HEIGHT * 1.6.
Proof.
  unfold laneBlocked. destruct (lastInLane its ln) as [m |] eqn:E.
  - apply lastInLane_Some in E. destruct E as (Hm & Hl & Hmin).
    rewrite ltb_lt. split.
    + intros Hlt. exists m. auto.
    + intros (x & Hx & Hlx & Hlt).
      eapply Qle_lt_trans; [apply Hmin; eauto | exact Hlt].
  - split; [discriminate |]. intros (x & Hx & Hlx & _).
    exfalso. exact (proj1 (lastInLane_None its ln) E x Hx Hlx).
Qed.

Lemma laneBlocked_false (its : list Item) (ln : Z) :
  laneBlocked its ln = false <->
  forall x, In x its -> lane x = ln -> ITEM_HEIGHT * 1.6 <= y x.
Proof.
  rewrite <- not_true_iff_false, laneBlocked_true. split.
  - intros Hno x Hx Hl. apply Qnot_lt_le. intros Hlt. apply Hno. eauto.
  - intros Hall (x & Hx & Hl & Hlt).
    exact (Qlt_not_le _ _ Hlt (Hall x Hx Hl)).
Qed.

(** ** The loop of [tick] *)

Section SweepFacts.

Variable height : Q.

Lemma sweepItem_spec (pl : Z) (d : Q) (acc : Sweep) (it : Item) :
  sweepItem height pl d acc it =
  {| updatedItems :=
       updatedItems acc ++ (if kept height pl d it then [advance d it] else []);
     hitObstacle := hitObstacle acc || fatal height pl d it;
     scoreDelta :=
       (scoreDelta acc + (if collected height pl d it then 120 else 0))%Z |}.
Proof.
  unfold sweepItem, kept, fatal, collected, touches, offscreen, isObstacle,
    advance.
  destruct acc as [u h sd]; simpl.
  destruct (JS.gtb (y it + d) (height + ITEM_HEIGHT)); simpl.
  - now rewrite app_nil_r, orb_false_r, Z.add_0_r.
  - destruct ((lane it =? pl)%Z
              && (JS.gtb (y it + d + ITEM_HEIGHT) (carTop height)
                  && JS.ltb (y it + d) (carBottom height))); simpl.
    + destruct (type it); simpl.
      * now rewrite app_nil_r, orb_true_r, Z.add_0_r.
      * now rewrite app_nil_r, orb_false_r.
    + now rewrite orb_false_r, Z.add_0_r.
Qed.

Lemma sweep_fold (pl : Z) (d : Q) (its : list Item) (acc : Sweep) :
  fold_left (sweepItem height pl d) its acc =
  {| updatedItems :=
       updatedItems acc ++ map (advance d) (filter (kept height pl d) its);
     hitObstacle := hitObstacle acc || existsb (fatal height pl d) its;
     scoreDelta :=
       (scoreDelta acc
        + 120 * Z.of_nat (length (filter (collected height pl d) its)))%Z |}.
Proof.
  revert acc. induction its as [| it its IH]; intros acc;
    cbn [fold_left filter existsb map length].
  - destruct acc; cbn [updatedItems hitObstacle scoreDelta].
    now rewrite app_nil_r, orb_false_r, Z.mul_0_r, Z.add_0_r.
  - rewrite IH, sweepItem_spec.
    cbn [updatedItems hitObstacle scoreDelta]. f_equal.
    + rewrite <- app_assoc. f_equal.
      destruct (kept height pl d it); reflexivity.
    + now rewrite orb_assoc.
    + destruct (collected height pl d it); cbn [length];
        rewrite ?Nat2Z.inj_succ; lia.
Qed.

Lemma sweep_updatedItems (t : Q) (s : State) :
  updatedItems (sweep height t s) =
  map (advance (frameDistance t s))
      (filter (kept height (laneRef s) (frameDistance t s)) (itemsRef s)).
Proof. unfold sweep. rewrite sweep_fold. reflexivity. Qed.

Lemma sweep_hitObstacle (t : Q) (s : State) :
  hitObstacle (sweep height t s) =
  existsb (fatal height (laneRef s) (frameDistance t s)) (itemsRef s).
Proof. unfold sweep. rewrite sweep_fold. reflexivity. Qed.

Lemma sweep_scoreDelta (t : Q) (s : State) :
  scoreDelta (sweep height t s) =
  (120 * Z.of_nat (length (coinsCollected height t s)))%Z.
Proof. unfold sweep. rewrite sweep_fold. reflexivity. Qed.

(** The guard [if (scoreDelta)] changes nothing: adding [0] is a no-op. *)
Lemma frameScore_eq (t : Q) (s : State) :
  frameScore height t s =
  (scoreRef s + 120 * Z.of_nat (length (coinsCollected height t s))
   + JS.floor (frameDelta t s * 30))%Z.
Proof.
  unfold frameScore. rewrite sweep_scoreDelta.
  destruct (120 * Z.of_nat (length (coinsCollected height t s)) =? 0)%Z eqn:E.
  - apply Z.eqb_eq in E. rewrite E. lia.
  - reflexivity.
Qed.

(** The car's box, from the top of the window. *)
Lemma carTop_val : carTop height == height - 166.
Proof.
  unfold carTop, carY.
  assert (E : CAR_HEIGHT / 2 == 26) by reflexivity.
  rewrite E. ring.
Qed.

Lemma carBottom_val : carBottom height == height - 114.
Proof.
  unfold carBottom, carY.
  assert (E : CAR_HEIGHT / 2 == 26) by reflexivity.
  rewrite E. ring.
Qed.

(** An item that touches the car has not left the screen. *)
Lemma touches_onscreen (pl : Z) (d : Q) (it : Item) :
  touches height pl d it = true -> offscreen height d it = false.
Proof.
  unfold touches, offscreen. intros H.
  apply andb_true_iff in H. destruct H as [_ H].
  apply andb_true_iff in H. destruct H as [_ H].
  apply ltb_lt in H. apply gtb_le.
  pose proof carBottom_val as Hb.
  unfold ITEM_HEIGHT. lra.
Qed.

Lemma touches_iff (pl : Z) (d : Q) (it : Item) :
  touches height pl d it = true <->
  lane it = pl
  /\ carTop height < y it + d + ITEM_HEIGHT
  /\ y it + d < carBottom height.
Proof.
  unfold touches.
  rewrite !andb_true_iff, Z.eqb_eq, gtb_gt, ltb_lt. tauto.
Qed.

Lemma fatal_iff (pl : Z) (d : Q) (it : Item) :
  fatal height pl d it = true <->
  type it = obstacle /\ touches height pl d it = true.
Proof.
  unfold fatal, isObstacle. split.
  - intros H. apply andb_true_iff in H. destruct H as [H Ho].
    apply andb_true_iff in H. destruct H as [_ Ht].
    split; [| exact Ht]. destruct (type it); [reflexivity | discriminate].
  - intros [Ho Ht]. rewrite (touches_onscreen _ _ _ Ht), Ht, Ho. reflexivity.
Qed.

Lemma collected_iff (pl : Z) (d : Q) (it : Item) :
  collected height pl d it = true <->
  type it = coin /\ touches height pl d it = true.
Proof.
  unfold collected, isObstacle. split.
  - intros H. apply andb_true_iff in H. destruct H as [H Ho].
    apply andb_true_iff in H. destruct H as [_ Ht].
    split; [| exact Ht]. destruct (type it); [discriminate | reflexivity].
  - intros [Ho Ht]. rewrite (touches_onscreen _ _ _ Ht), Ht, Ho. reflexivity.
Qed.

Lemma kept_touches (pl : Z) (d : Q) (it : Item) :
  touches height pl d it = true -> kept height pl d it = false.
Proof.
  intros Ht. unfold kept. rewrite Ht. apply andb_false_r.
Qed.

(** The ids that survive the loop are ids of kept items. *)
Lemma sweep_ids (t : Q) (s : State) :
  map id (updatedItems (sweep height t s)) =
  map id (filter (kept height (laneRef s) (frameDistance t s)) (itemsRef s)).
Proof.
  rewrite sweep_updatedItems, map_map. reflexivity.
Qed.

End SweepFacts.

(** ** The spawn scheduler *)

(** What an attempt leaves untouched. *)
Lemma trySpawnItem_frame (r1 r2 t : Q) (s : State) :
  let s' := trySpawnItem r1 r2 t s in
  gameState s' = gameState s /\ laneIndex s' = laneIndex s
  /\ laneRef s' = laneRef s /\ score s' = score s
  /\ scoreRef s' = scoreRef s /\ highScore s' = highScore s
  /\ speed s' = speed s /\ speedRef s' = speedRef s
  /\ elapsedRef s' = elapsedRef s /\ lastTimeRef s' = lastTimeRef s.
Proof.
  unfold trySpawnItem.
  destruct (spawnTooSoon t s); [cbv zeta; tauto |].
  destruct (laneBlocked (itemsRef s) (spawnLane r1)); cbv zeta; simpl; tauto.
Qed.

(** An attempt either returns early, or appends the new item. *)
Lemma trySpawnItem_cases (r1 r2 t : Q) (s : State) :
  ((spawnTooSoon t s = true
    \/ laneBlocked (itemsRef s) (spawnLane r1) = true)
   /\ trySpawnItem r1 r2 t s = s)
  \/ (spawnTooSoon t s = false
      /\ laneBlocked (itemsRef s) (spawnLane r1) = false
      /\ itemsRef (trySpawnItem r1 r2 t s)
         = itemsRef s ++ [spawnedItem r1 r2 s]
      /\ items (trySpawnItem r1 r2 t s)
         = itemsRef s ++ [spawnedItem r1 r2 s]
      /\ lastSpawnRef (trySpawnItem r1 r2 t s) = t
      /\ nextIdRef (trySpawnItem r1 r2 t s) = (nextIdRef s + 1)%Z).
Proof.
  unfold trySpawnItem.
  destruct (spawnTooSoon t s); [left; auto |].
  destruct (laneBlocked (itemsRef s) (spawnLane r1)); [left; auto |].
  right. simpl. repeat split; reflexivity.
Qed.


(** Ids stay fresh through an attempt. *)
Lemma trySpawnItem_fresh_ids (r1 r2 t : Q) (s : State) :
  fresh_ids s -> fresh_ids (trySpawnItem r1 r2 t s).
Proof.
  intros [Hnd Hlt].
  destruct (trySpawnItem_cases r1 r2 t s)
    as [[_ ->] | (_ & _ & Hits & _ & _ & Hid)]; [split; assumption |].
  unfold fresh_ids. rewrite Hits, Hid, map_app. simpl. split.
  - apply NoDup_app; [exact Hnd | repeat constructor; intros [] |].
    intros i Hi [<- | []].
    apply in_map_iff in Hi. destruct Hi as (it & Hi & Hit).
    rewrite Forall_forall in Hlt. specialize (Hlt it Hit). lia.
  - apply Forall_app. split.
    + eapply Forall_impl; [| exact Hlt]. intros it Hit. simpl in *. lia.
    + repeat constructor. simpl. lia.
Qed.

(** New ids are beyond every id in use. *)
Lemma trySpawnItem_ids (r1 r2 t : Q) (s : State) (i : Z) :
  In i (map id (itemsRef (trySpawnItem r1 r2 t s))) ->
  In i (map id (itemsRef s)) \/ i = nextIdRef s.
Proof.
  destruct (trySpawnItem_cases r1 r2 t s)
    as [[_ ->] | (_ & _ & Hits & _)]; [auto |].
  rewrite Hits, map_app, in_app_iff. simpl. intuition.
Qed.

(** ** The frame callback *)

Section TickFacts.

Variable height : Q.

Lemma tick_running (r1 r2 t : Q) (s : State) :
  gameState s = running ->
  tick height r1 r2 t s =
  if hitObstacle (sweep height t s)
  then endGame (trySpawnItem r1 r2 t (tickUpdate height t s))
  else trySpawnItem r1 r2 t (tickUpdate height t s).
Proof.
  intros Hrun. unfold tick. rewrite Hrun. reflexivity.
Qed.

Lemma tick_idle (r1 r2 t : Q) (s : State) :
  gameState s <> running -> tick height r1 r2 t s = s.
Proof.
  intros Hidle. unfold tick. destruct (gameState s); congruence.
Qed.

(** A frame never moves the car. *)
Lemma tick_lane (r1 r2 t : Q) (s : State) :
  laneIndex (tick height r1 r2 t s) = laneIndex s
  /\ laneRef (tick height r1 r2 t s) = laneRef s.
Proof.
  unfold tick. destruct (gameState s); auto.
  pose proof (trySpawnItem_frame r1 r2 t (tickUpdate height t s)) as F.
  cbv zeta in F. destruct F as (_ & Hl & Hr & _).
  destruct (hitObstacle (sweep height t s)); simpl; rewrite Hl, Hr; auto.
Qed.

(** The score and the speed a running frame leaves behind. *)
Lemma tick_score (r1 r2 t : Q) (s : State) :
  gameState s = running ->
  scoreRef (tick height r1 r2 t s) = frameScore height t s
  /\ score (tick height r1 r2 t s) = frameScore height t s
  /\ speedRef (tick height r1 r2 t s) = nextSpeed t s
  /\ speed (tick height r1 r2 t s) = JS.round (nextSpeed t s)
  /\ lastTimeRef (tick height r1 r2 t s) = t.
Proof.
  intros Hrun. rewrite (tick_running _ _ _ _ Hrun).
  pose proof (trySpawnItem_frame r1 r2 t (tickUpdate height t s)) as F.
  cbv zeta in F.
  destruct F as (_ & _ & _ & Hsc & Hscr & _ & Hsp & Hspr & _ & Hlt).
  destruct (hitObstacle (sweep height t s)); simpl;
    rewrite Hsc, Hscr, Hsp, Hspr, Hlt; simpl; auto.
Qed.

(** The phase after a running frame tells whether an obstacle was hit. *)
Lemma tick_gameState (r1 r2 t : Q) (s : State) :
  gameState s = running ->
  gameState (tick height r1 r2 t s) =
  if hitObstacle (sweep height t s) then gameover else running.
Proof.
  intros Hrun. rewrite (tick_running _ _ _ _ Hrun).
  pose proof (trySpawnItem_frame r1 r2 t (tickUpdate height t s)) as F.
  cbv zeta in F. destruct F as (Hg & _).
  destruct (hitObstacle (sweep height t s)); simpl; [reflexivity |].
  rewrite Hg. simpl. exact Hrun.
Qed.

(** The items after a running frame are those after its spawn attempt. *)
Lemma tick_itemsRef (r1 r2 t : Q) (s : State) :
  gameState s = running ->
  itemsRef (tick height r1 r2 t s)
  = itemsRef (trySpawnItem r1 r2 t (tickUpdate height t s))
  /\ items (tick height r1 r2 t s)
     = items (trySpawnItem r1 r2 t (tickUpdate height t s))
  /\ lastSpawnRef (tick height r1 r2 t s)
     = lastSpawnRef (trySpawnItem r1 r2 t (tickUpdate height t s))
  /\ nextIdRef (tick height r1 r2 t s)
     = nextIdRef (trySpawnItem r1 r2 t (tickUpdate height t s)).
Proof.
  intros Hrun. rewrite (tick_running _ _ _ _ Hrun).
  destruct (hitObstacle (sweep height t s)); simpl; auto.
Qed.

Lemma NoDup_ids_filter (f : Item -> bool) (l : list Item) :
  NoDup (map id l) -> NoDup (map id (filter f l)).
Proof.
  induction l as [| a l IH]; simpl; intros Hnd; [constructor |].
  inversion Hnd as [| ? ? Hnot Hrest]; subst.
  destruct (f a); simpl; [constructor |]; auto.
  intros Hin. apply Hnot.
  apply in_map_iff in Hin. destruct Hin as (x & Hx & Hin).
  apply filter_In in Hin. apply in_map_iff. exists x. tauto.
Qed.

(** Ids stay fresh through the loop, and through the whole frame. *)
Lemma tickUpdate_fresh_ids (t : Q) (s : State) :
  fresh_ids s -> fresh_ids (tickUpdate height t s).
Proof.
  intros [Hnd Hlt]. unfold fresh_ids. simpl. split.
  - rewrite sweep_ids. apply NoDup_ids_filter, Hnd.
  - rewrite sweep_updatedItems. rewrite Forall_forall in *.
    intros x Hx. apply in_map_iff in Hx. destruct Hx as (it & <- & Hit).
    apply filter_In in Hit. simpl. apply Hlt. tauto.
Qed.

Lemma tick_fresh_ids (r1 r2 t : Q) (s : State) :
  fresh_ids s -> fresh_ids (tick height r1 r2 t s).
Proof.
  intros Hf. unfold tick. destruct (gameState s); auto.
  pose proof (trySpawnItem_fresh_ids r1 r2 t _ (tickUpdate_fresh_ids t s Hf))
    as H.
  destruct (hitObstacle (sweep height t s)); auto.
Qed.

(** An item that touches the car is gone after the frame, whatever the
    spawn attempt adds. *)
Lemma tick_removes_touched (r1 r2 t : Q) (s : State) (it : Item) :
  gameState s = running ->
  fresh_ids s ->
  In it (itemsRef s) ->
  touches height (laneRef s) (frameDistance t s) it = true ->
  ~ In (id it) (map id (itemsRef (tick height r1 r2 t s)))
  /\ ~ In (id it) (map id (items (tick height r1 r2 t s))).
Proof.
  intros Hrun [Hnd Hlt] Hin Htouch.
  assert (Hgone : ~ In (id it) (map id (itemsRef (tickUpdate height t s)))).
  { simpl. rewrite sweep_ids. intros Hid.
    apply in_map_iff in Hid. destruct Hid as (x & Hx & Hxin).
    apply filter_In in Hxin. destruct Hxin as [Hxin Hkept].
    assert (x = it).
    { clear - Hnd Hx Hxin Hin. induction (itemsRef s) as [| a l IH];
        simpl in *; [tauto |].
      inversion Hnd as [| ? ? Hnot Hrest]; subst.
      destruct Hxin as [-> | Hxin], Hin as [-> | Hin]; auto.
      - exfalso. apply Hnot. rewrite Hx. apply in_map. exact Hin.
      - exfalso. apply Hnot. rewrite <- Hx. apply in_map. exact Hxin. }
    subst x. rewrite (kept_touches _ _ _ _ Htouch) in Hkept. discriminate. }
  assert (Hnew : id it <> nextIdRef (tickUpdate height t s)).
  { simpl. rewrite Forall_forall in Hlt. specialize (Hlt it Hin). lia. }
  destruct (tick_itemsRef r1 r2 t s Hrun) as (Hi & Hi' & _).
  rewrite Hi, Hi'.
  destruct (trySpawnItem_cases r1 r2 t (tickUpdate height t s))
    as [[_ ->] | (_ & _ & Hits & Hits' & _)].
  - simpl. auto.
  - rewrite Hits, Hits', map_app, in_app_iff. simpl in Hnew |- *.
    intuition congruence.
Qed.

End TickFacts.

(** ** Sessions *)

Section SessionFacts.

Variable height : Q.

Lemma frameDelta_nonneg (t : Q) (s : State) :
  lastTimeRef s == 0 \/ lastTimeRef s <= t -> 0 <= frameDelta t s.
Proof.
  intros Hclock. unfold frameDelta.
  assert (Hdiv : forall x : Q, x / 1000 == x * (1 # 1000))
    by (intros x; reflexivity).
  rewrite Hdiv.
  destruct (JS.truthy (lastTimeRef s)) eqn:E.
  - destruct Hclock as [H0 | Hle].
    + apply truthy_false in H0. congruence.
    + lra.
  - lra.
Qed.

(** With a sound clock, a running frame lowers neither score nor speed. *)
Lemma tick_not_below (r1 r2 t : Q) (s : State) :
  synced s ->
  lastTimeRef s == 0 \/ lastTimeRef s <= t ->
  not_below s (tick height r1 r2 t s).
Proof.
  intros (_ & _ & Hsc & Hsp) Hclock.
  destruct (GameState_eq_dec (gameState s) running) as [Hrun | Hidle].
  - pose proof (frameDelta_nonneg t s Hclock) as Hd.
    destruct (tick_score height r1 r2 t s Hrun) as (E1 & E2 & E3 & E4 & _).
    assert (Hup : (scoreRef s <= frameScore height t s)%Z).
    { rewrite frameScore_eq.
      assert (0 <= JS.floor (frameDelta t s * 30))%Z
        by (apply floor_nonneg; lra).
      lia. }
    assert (Hfast : speedRef s <= nextSpeed t s)
      by (unfold nextSpeed, SPEED_RAMP; lra).
    unfold not_below. rewrite E1, E2, E3, E4, Hsc, Hsp.
    repeat split; auto. apply round_mono, Hfast.
  - rewrite (tick_idle _ _ _ _ _ Hidle). unfold not_below.
    repeat split; try lia. apply Qle_refl.
Qed.

Lemma tick_synced (r1 r2 t : Q) (s : State) :
  synced s -> synced (tick height r1 r2 t s).
Proof.
  intros Hs.
  destruct (GameState_eq_dec (gameState s) running) as [Hrun | Hidle];
    [| rewrite (tick_idle _ _ _ _ _ Hidle); exact Hs].
  destruct Hs as (_ & Hl & _ & _).
  destruct (tick_score height r1 r2 t s Hrun) as (E1 & E2 & E3 & E4 & _).
  destruct (tick_lane height r1 r2 t s) as (L1 & L2).
  destruct (tick_itemsRef height r1 r2 t s Hrun) as (I1 & I2 & _).
  unfold synced. rewrite E1, E2, E3, E4, L1, L2, I1, I2.
  repeat split; auto.
  destruct (trySpawnItem_cases r1 r2 t (tickUpdate height t s))
    as [[_ ->] | (_ & _ & -> & -> & _)]; reflexivity.
Qed.

Lemma not_below_refl (s : State) : not_below s s.
Proof.
  unfold not_below. repeat split; try lia. apply Qle_refl.
Qed.

Lemma not_below_trans (a b c : State) :
  not_below a b -> not_below b c -> not_below a c.
Proof.
  unfold not_below. intros (A1 & A2 & A3 & A4) (B1 & B2 & B3 & B4).
  repeat split; try lia. eapply Qle_trans; eauto.
Qed.

(** A lane command touches the lane cells only. *)
Lemma updateLane_run (updater : Z -> Z) (s : State) :
  synced s ->
  synced (updateLane updater s) /\ not_below s (updateLane updater s).
Proof.
  intros (Hi & _ & Hsc & Hsp). unfold synced, not_below. simpl.
  repeat split; auto; try lia. apply Qle_refl.
Qed.

(** One event of a run: the hypotheses carry over to the rest of the
    session, and neither score nor speed goes down. *)
Lemma handle_run (s : State) (e : Event) (evs : list Event) :
  isStart e = false ->
  StronglySorted Qle (timestamps (e :: evs)) ->
  clock_ok s (e :: evs) ->
  synced s ->
  StronglySorted Qle (timestamps evs)
  /\ clock_ok (handle height s e) evs
  /\ synced (handle height s e)
  /\ not_below s (handle height s e).
Proof.
  intros Hns Hsorted Hclock Hsync.
  destruct e as [r1 r2 t | | |]; simpl in *; try discriminate.
  - inversion Hsorted as [| ? ? Hrest Hall]; subst.
    assert (Hnow : lastTimeRef s == 0 \/ lastTimeRef s <= t).
    { destruct Hclock as [H0 | Hall']; [left; exact H0 | right].
      inversion Hall'; assumption. }
    split; [exact Hrest |]. split; [| split].
    + destruct (GameState_eq_dec (gameState s) running) as [Hrun | Hidle].
      * destruct (tick_score height r1 r2 t s Hrun) as (_ & _ & _ & _ & E).
        right. rewrite E. exact Hall.
      * rewrite (tick_idle _ _ _ _ _ Hidle).
        destruct Hclock as [H0 | Hall']; [left; exact H0 | right].
        inversion Hall'; assumption.
    + apply tick_synced, Hsync.
    + apply tick_not_below; assumption.
  - split; [exact Hsorted |]. split; [exact Hclock |].
    apply updateLane_run, Hsync.
  - split; [exact Hsorted |]. split; [exact Hclock |].
    apply updateLane_run, Hsync.
Qed.

Lemma play_run (evs rest : list Event) (s : State) :
  singleRun evs ->
  StronglySorted Qle (timestamps (evs ++ rest)) ->
  clock_ok s (evs ++ rest) ->
  synced s ->
  StronglySorted Qle (timestamps rest)
  /\ clock_ok (play height evs s) rest
  /\ synced (play height evs s)
  /\ not_below s (play height evs s).
Proof.
  revert s. induction evs as [| e evs IH]; intros s Hrun Hsorted Hclock Hsync.
  - simpl in *. split; [exact Hsorted |]. split; [exact Hclock |].
    split; [exact Hsync | apply not_below_refl].
  - inversion Hrun as [| ? ? He Hrun']; subst.
    rewrite <- app_comm_cons in Hsorted, Hclock.
    destruct (handle_run s e (evs ++ rest) He Hsorted Hclock Hsync)
      as (Hsorted' & Hclock' & Hsync' & Hstep).
    destruct (IH (handle height s e) Hrun' Hsorted' Hclock' Hsync')
      as (H1 & H2 & H3 & H4).
    simpl. split; [exact H1 |]. split; [exact H2 |].
    split; [exact H3 |]. eapply not_below_trans; eauto.
Qed.

(** The lane index of a reachable state. *)
Lemma reachable_lane (s : State) :
  reachable height s ->
  (0 <= laneIndex s <= LANES - 1)%Z /\ laneRef s = laneIndex s.
Proof.
  induction 1 as [| s e Hs [IHr IHl]].
  - simpl. unfold LANES. lia.
  - destruct e as [r1 r2 t | | |]; simpl.
    + destruct (tick_lane height r1 r2 t s) as (-> & ->). auto.
    + unfold clamp, LANES in *. lia.
    + unfold clamp, LANES in *. lia.
    + unfold LANES. lia.
Qed.

(** Ids are fresh in every reachable state, and the cells are in step. *)
Lemma reachable_fresh_ids (s : State) :
  reachable height s -> fresh_ids s.
Proof.
  induction 1 as [| s e Hs IH].
  - split; simpl; constructor.
  - destruct e as [r1 r2 t | | |]; simpl.
    + apply tick_fresh_ids, IH.
    + exact IH.
    + exact IH.
    + split; simpl; constructor.
Qed.

Lemma reachable_synced (s : State) :
  reachable height s -> synced s.
Proof.
  induction 1 as [| s e Hs IH].
  - repeat split; reflexivity.
  - destruct e as [r1 r2 t | | |]; simpl.
    + apply tick_synced, IH.
    + apply updateLane_run, IH.
    + apply updateLane_run, IH.
    + repeat split; reflexivity.
Qed.

(** A session played from a reachable state ends in one. *)
Lemma play_reachable (evs : list Event) (s : State) :
  reachable height s -> reachable height (play height evs s).
Proof.
  revert s. induction evs as [| e evs IH]; intros s Hs; simpl.
  - exact Hs.
  - apply IH. constructor. exact Hs.
Qed.

End SessionFacts.

(** The sample runs are reachable. *)
Lemma openingRun_reachable : reachable 800 openingRun.
Proof. apply play_reachable. constructor. Qed.

Lemma openingCoinRun_reachable : reachable 800 openingCoinRun.
Proof. apply play_reachable. constructor. Qed.

Lemma crashedRun_reachable : reachable 800 crashedRun.
Proof.
  exact (reachable_step 800 openingRun (Frame 0.5 0.5 2800)
           openingRun_reachable).
Qed.

(** ** Runs with a sound clock *)

Lemma spawnInterval_min (s : State) : (SPAWN_MIN <= spawnInterval s)%Z.
Proof. unfold spawnInterval. lia. Qed.

Lemma run_inv_endGame (s : State) : run_inv s -> run_inv (endGame s).
Proof. intros H. exact H. Qed.

Lemma run_inv_updateLane (updater : Z -> Z) (s : State) :
  run_inv s -> run_inv (updateLane updater s).
Proof. intros H. exact H. Qed.

Lemma run_inv_startGame (s : State) : run_inv (startGame s).
Proof.
  unfold run_inv. simpl. repeat split; try apply Qle_refl; try lia.
  left. split; reflexivity.
Qed.

(** In a state that holds items, the frame's distance is at least what
    [BASE_SPEED] covers between the last frame and this one. *)
Lemma frameDistance_base (t : Q) (s : State) :
  inject_Z BASE_SPEED <= speedRef s ->
  inject_Z SPAWN_MIN <= lastTimeRef s ->
  lastTimeRef s <= t ->
  (360 # 1000) * (t - lastTimeRef s) <= frameDistance t s.
Proof.
  unfold BASE_SPEED, SPAWN_MIN. change (inject_Z 360) with 360.
  intros Hspeed Hpos Hle.
  assert (Hdiv : forall x : Q, x / 1000 == x * (1 # 1000))
    by (intros x; reflexivity).
  assert (Hd : frameDelta t s == (t - lastTimeRef s) * (1 # 1000)).
  { unfold frameDelta. destruct (JS.truthy (lastTimeRef s)) eqn:E.
    - apply Hdiv.
    - apply truthy_false in E. exfalso. lra. }
  assert (Hd0 : 0 <= frameDelta t s) by (rewrite Hd; lra).
  assert (Hfast : 360 <= nextSpeed t s)
    by (unfold nextSpeed, SPEED_RAMP; lra).
  unfold frameDistance.
  apply Qle_trans with (360 * frameDelta t s).
  - rewrite Hd. lra.
  - apply Qmult_le_compat_r; assumption.
Qed.

(** Where the loop of a frame leaves the items of a run with a sound
    clock: none yet, or each at least [BASE_SPEED] units a second below
    the spawn line since the last spawn. *)
Lemma tickUpdate_scrolled (height t : Q) (s : State) :
  run_inv s ->
  lastTimeRef s == 0 \/ lastTimeRef s <= t ->
  (lastSpawnRef s == 0 /\ itemsRef (tickUpdate height t s) = [])
  \/ (360 <= lastSpawnRef s /\ lastSpawnRef s <= t
      /\ Forall (fun it =>
                   - ITEM_HEIGHT + (360 # 1000) * (t - lastSpawnRef s)
                   <= y it)
                (itemsRef (tickUpdate height t s))).
Proof.
  intros (Hspeed & Helapsed & Hscore & Hitems) Hclock.
  unfold BASE_SPEED, SPAWN_MIN in *. change (inject_Z 360) with 360 in *.
  destruct Hitems as [[H0 Hnone] | (Hmin & Hle & Hall)].
  - left. split; [exact H0 |]. simpl. rewrite sweep_updatedItems, Hnone.
    reflexivity.
  - right.
    assert (Hnow : lastTimeRef s <= t)
      by (destruct Hclock as [H0 | H]; [exfalso; lra | exact H]).
    assert (Hdist : (360 # 1000) * (t - lastTimeRef s)
                    <= frameDistance t s).
    { apply frameDistance_base; unfold BASE_SPEED, SPAWN_MIN;
        change (inject_Z 360) with 360; try assumption. lra. }
    split; [exact Hmin |]. split; [lra |].
    simpl. rewrite sweep_updatedItems. apply Forall_forall.
    intros x Hx. apply in_map_iff in Hx. destruct Hx as (it & <- & Hit).
    apply filter_In in Hit. destruct Hit as [Hit _].
    rewrite Forall_forall in Hall. specialize (Hall it Hit).
    simpl. lra.
Qed.

(** When the attempt of such a frame is due, every item is at least
    [SPAWN_GAP] below the spawn line. *)
Lemma due_items_scrolled (height t : Q) (s : State) :
  run_inv s ->
  lastTimeRef s == 0 \/ lastTimeRef s <= t ->
  spawnTooSoon t (tickUpdate height t s) = false ->
  Forall (fun it => - ITEM_HEIGHT + SPAWN_GAP <= y it)
         (itemsRef (tickUpdate height t s)).
Proof.
  intros Hinv Hclock Hdue.
  pose proof (spawnInterval_min (tickUpdate height t s)) as Hint.
  rewrite Zle_Qle in Hint. unfold SPAWN_MIN in Hint.
  change (inject_Z 360) with 360 in Hint.
  unfold spawnTooSoon in Hdue. apply ltb_ge in Hdue. simpl in Hdue.
  destruct (tickUpdate_scrolled height t s Hinv Hclock)
    as [[_ ->] | (_ & _ & Hall)]; [constructor |].
  eapply Forall_impl; [| exact Hall]. intros it Hit. simpl in Hit.
  unfold ITEM_HEIGHT, SPAWN_GAP in *. simpl in Hint. lra.
Qed.

(** One frame of a run with a sound clock: [run_inv] carries over, and
    a due spawn attempt finds its lane free. *)
Lemma tick_run_inv (height r1 r2 t : Q) (s : State) :
  run_inv s ->
  lastTimeRef s == 0 \/ lastTimeRef s <= t ->
  run_inv (tick height r1 r2 t s)
  /\ (gameState s = running ->
      spawnTooSoon t (tickUpdate height t s) = false ->
      laneBlocked (itemsRef (tickUpdate height t s)) (spawnLane r1) = false).
Proof.
  intros Hinv Hclock.
  destruct (GameState_eq_dec (gameState s) running) as [Hrun | Hidle];
    [| rewrite (tick_idle _ _ _ _ _ Hidle); split; [exact Hinv | tauto]].
  pose proof (tickUpdate_scrolled height t s Hinv Hclock) as Hup.
  destruct Hinv as (Hspeed & Helapsed & Hscore & Hitems).
  pose proof (frameDelta_nonneg t s Hclock) as Hd.
  pose proof (spawnInterval_min (tickUpdate height t s)) as Hint.
  rewrite Zle_Qle in Hint.
  unfold BASE_SPEED, SPAWN_MIN in *. change (inject_Z 360) with 360 in *.
  assert (Hfree :
    spawnTooSoon t (tickUpdate height t s) = false ->
    laneBlocked (itemsRef (tickUpdate height t s)) (spawnLane r1) = false).
  { intros Hdue. apply laneBlocked_false. intros x Hx _.
    unfold spawnTooSoon in Hdue. apply ltb_ge in Hdue. simpl in Hdue.
    destruct Hup as [[_ Hnone] | (_ & _ & Hall)].
    - rewrite Hnone in Hx. destruct Hx.
    - rewrite Forall_forall in Hall. specialize (Hall x Hx).
      unfold ITEM_HEIGHT in *. simpl in Hint. lra. }
  split; [| intros _; exact Hfree].
  assert (Hspawn : run_inv (trySpawnItem r1 r2 t (tickUpdate height t s))).
  { pose proof (trySpawnItem_frame r1 r2 t (tickUpdate height t s)) as F.
    cbv zeta in F.
    destruct F as (_ & _ & _ & _ & Hsc & _ & _ & Hsp & Hel & Hlt).
    unfold run_inv, BASE_SPEED, SPAWN_MIN. change (inject_Z 360) with 360.
    rewrite Hsc, Hsp, Hel, Hlt. simpl scoreRef. simpl speedRef.
    simpl elapsedRef. simpl lastTimeRef.
    split; [unfold nextSpeed, SPEED_RAMP; lra |].
    split; [lra |].
    split.
    { rewrite frameScore_eq.
      assert (0 <= JS.floor (frameDelta t s * 30))%Z
        by (apply floor_nonneg; lra).
      lia. }
    destruct (trySpawnItem_cases r1 r2 t (tickUpdate height t s))
      as [[_ ->] | (Hdue & _ & -> & _ & -> & _)].
    - exact Hup.
    - right. unfold spawnTooSoon in Hdue. apply ltb_ge in Hdue.
      simpl in Hdue, Hint.
      assert (Ht : 360 <= t)
        by (destruct Hup as [[H0 _] | (Hmin & _)]; lra).
      split; [exact Ht |]. split; [apply Qle_refl |].
      apply Forall_app. split.
      + destruct Hup as [[_ ->] | (_ & Hle & Hall)]; [constructor |].
        eapply Forall_impl; [| exact Hall]. intros it Hit. simpl in *. lra.
      + repeat constructor. simpl. lra. }
  rewrite (tick_running _ _ _ _ _ Hrun).
  destruct (hitObstacle (sweep height t s));
    [apply run_inv_endGame |]; exact Hspawn.
Qed.

(** A run with a sound clock keeps [run_inv] all along. *)
Lemma play_run_inv (height : Q) (evs rest : list Event) (s : State) :
  singleRun evs ->
  StronglySorted Qle (timestamps (evs ++ rest)) ->
  clock_ok s (evs ++ rest) ->
  synced s ->
  run_inv s ->
  run_inv (play height evs s).
Proof.
  revert s.
  induction evs as [| e evs IH]; intros s Hrun Hsorted Hclock Hsync Hinv.
  - exact Hinv.
  - inversion Hrun as [| ? ? He Hrun']; subst.
    rewrite <- app_comm_cons in Hsorted, Hclock.
    destruct (handle_run height s e (evs ++ rest) He Hsorted Hclock Hsync)
      as (Hsorted' & Hclock' & Hsync' & _).
    simpl. apply IH; try assumption.
    destruct e as [r1 r2 t | | |]; simpl in *; try discriminate.
    + apply tick_run_inv; [exact Hinv |].
      destruct Hclock as [H0 | Hall]; [left; exact H0 | right].
      inversion Hall; assumption.
    + apply run_inv_updateLane, Hinv.
    + apply run_inv_updateLane, Hinv.
Qed.

(** ** Worked frames

    A frame a tenth of a second after the opening one: the speed goes
    from 360 to 361, the road scrolls 36.1 units and the survival bonus
    is 3.  The frame 1.8 s after the opening one ends the run with 54
    points, which become the high score. *)
Example frame_of_a_tenth_of_a_second :
  frameDelta 1100 openingRun == 0.1
  /\ nextSpeed 1100 openingRun == 361
  /\ frameDistance 1100 openingRun == 36.1
  /\ JS.floor (frameDelta 1100 openingRun * 30) = 3%Z
  /\ speed (tick 800 0.5 0.5 1100 openingRun) = 361%Z
  /\ score (tick 800 0.5 0.5 1100 openingRun) = 3%Z.
Proof.
  repeat split; vm_compute; reflexivity.
Qed.

Example crashedRun_scores :
  gameState crashedRun = gameover
  /\ score crashedRun = 54%Z
  /\ highScore crashedRun = 54%Z
  /\ speed crashedRun = 378%Z.
Proof.
  repeat split; vm_compute; reflexivity.
Qed.

(** * The claims of the specification *)

(** Closed side conditions on sample states are settled by evaluation. *)
Ltac by_evaluation :=
  vm_compute; first [reflexivity | discriminate | tauto].

Ltac fresh_ids_by_evaluation :=
  split; vm_compute;
  [ repeat (constructor; [intros H; simpl in H; intuition discriminate |]);
    constructor
  | repeat constructor ].

(** ** C1: the spawn scheduler and the collision flag *)

(** C1, as stated, fails.  In [openingRun] the frame at 2800 ms drives the
    obstacle into the car, so the collision flag is raised and the run
    ends; yet the spawn scheduler has run in that same frame: a new item
    with a fresh id is in the item set, the id counter has moved and
    [lastSpawnRef] holds the frame's timestamp.  The frame is not "end
    the game on the updated state". *)
Lemma C1_counterexample :
  gameState openingRun = running
  /\ hitObstacle (sweep 800 2800 openingRun) = true
  /\ gameState (tick 800 0.5 0.5 2800 openingRun) = gameover
  /\ itemsRef (tickUpdate 800 2800 openingRun) = []
  /\ itemsRef (tick 800 0.5 0.5 2800 openingRun)
     = [ {| id := 2; type := obstacle; lane := 1; y := - ITEM_HEIGHT |} ]
  /\ nextIdRef (tick 800 0.5 0.5 2800 openingRun)
     = (nextIdRef openingRun + 1)%Z
  /\ lastSpawnRef openingRun == 1000
  /\ lastSpawnRef (tick 800 0.5 0.5 2800 openingRun) == 2800
  /\ tick 800 0.5 0.5 2800 openingRun
     <> endGame (tickUpdate 800 2800 openingRun).
Proof.
  repeat split; try (vm_compute; reflexivity).
  intros Heq. apply (f_equal nextIdRef) in Heq. vm_compute in Heq.
  discriminate.
Qed.

(** C1, amended: every running frame calls the spawn scheduler, with the
    frame's timestamp and on the state the frame has just updated,
    whether or not the collision flag is raised.  The flag only decides
    what follows the attempt: the run ends if it is raised and goes on
    otherwise.  In particular an attempt that is due and finds its lane
    free adds its item even in the frame that ends the run. *)
Theorem C1_spawn_attempt_every_running_step
    (height r1 r2 t : Q) (s : State) :
  gameState s = running ->
  (hitObstacle (sweep height t s) = true ->
   tick height r1 r2 t s
   = endGame (trySpawnItem r1 r2 t (tickUpdate height t s)))
  /\ (hitObstacle (sweep height t s) = false ->
      tick height r1 r2 t s = trySpawnItem r1 r2 t (tickUpdate height t s))
  /\ (gameState (tick height r1 r2 t s) = gameover <->
      hitObstacle (sweep height t s) = true)
  /\ (spawnTooSoon t (tickUpdate height t s) = false ->
      laneBlocked (itemsRef (tickUpdate height t s)) (spawnLane r1) = false ->
      itemsRef (tick height r1 r2 t s)
      = itemsRef (tickUpdate height t s)
        ++ [spawnedItem r1 r2 (tickUpdate height t s)]
      /\ lastSpawnRef (tick height r1 r2 t s) = t
      /\ nextIdRef (tick height r1 r2 t s) = (nextIdRef s + 1)%Z).
Proof.
  intros Hrun. split; [| split; [| split]].
  - intros Hhit. rewrite (tick_running _ _ _ _ _ Hrun), Hhit. reflexivity.
  - intros Hhit. rewrite (tick_running _ _ _ _ _ Hrun), Hhit. reflexivity.
  - rewrite (tick_gameState _ _ _ _ _ Hrun).
    destruct (hitObstacle (sweep height t s)); split; intros; congruence.
  - intros Hsoon Hfree.
    destruct (tick_itemsRef height r1 r2 t s Hrun) as (Hi & _ & Hl & Hn).
    rewrite Hi, Hl, Hn.
    destruct (trySpawnItem_cases r1 r2 t (tickUpdate height t s))
      as [[[H | H] _] | (_ & _ & Hits & _ & Hlast & Hid)]; try congruence.
    auto.
Qed.

(** The amended C1 at the frame of [openingRun] that hits the obstacle. *)
Lemma C1_spawn_attempt_every_running_step_witness :
  gameState openingRun = running
  /\ (gameState (tick 800 0.5 0.5 2800 openingRun) = gameover <->
      hitObstacle (sweep 800 2800 openingRun) = true).
Proof.
  split.
  - reflexivity.
  - apply (C1_spawn_attempt_every_running_step 800 0.5 0.5 2800 openingRun).
    reflexivity.
Defined.

(** ** C2: lane commands outside a run *)

(** C2, as stated, fails.  Before the first run (phase [ready]) a move
    to the left takes the car from lane 1 to lane 0, and after a crash
    (phase [gameover]) a move to the right takes it from lane 1 to
    lane 2. *)
Lemma C2_counterexample :
  gameState initialState = ready
  /\ laneIndex initialState = 1%Z
  /\ laneIndex (moveLeft initialState) = 0%Z
  /\ laneRef (moveLeft initialState) = 0%Z
  /\ gameState crashedRun = gameover
  /\ laneIndex crashedRun = 1%Z
  /\ laneIndex (moveRight crashedRun) = 2%Z
  /\ laneRef (moveRight crashedRun) = 2%Z.
Proof.
  repeat split; vm_compute; reflexivity.
Qed.

(** C2, amended: a lane command has the same effect in every phase.  It
    moves the lane index, and its [laneRef] twin, one lane over, clamped
    to the lanes [0 .. LANES - 1], and it changes nothing else; the phase
    is neither read nor written. *)
Theorem C2_lane_commands_ignore_phase (s : State) (p : GameState) :
  moveLeft s
  = mkState (gameState s) (clamp (laneIndex s - 1) 0 (LANES - 1))
      (items s) (score s) (highScore s) (speed s) (itemsRef s)
      (clamp (laneIndex s - 1) 0 (LANES - 1))
      (scoreRef s) (speedRef s) (elapsedRef s) (lastSpawnRef s)
      (lastTimeRef s) (nextIdRef s)
  /\ moveRight s
     = mkState (gameState s) (clamp (laneIndex s + 1) 0 (LANES - 1))
         (items s) (score s) (highScore s) (speed s) (itemsRef s)
         (clamp (laneIndex s + 1) 0 (LANES - 1))
         (scoreRef s) (speedRef s) (elapsedRef s) (lastSpawnRef s)
         (lastTimeRef s) (nextIdRef s)
  /\ moveLeft (setGameState p s) = setGameState p (moveLeft s)
  /\ moveRight (setGameState p s) = setGameState p (moveRight s).
Proof.
  repeat split; reflexivity.
Qed.

(** ** C3: when a spawn attempt is rejected *)





(** ** C4: an obstacle that reaches the car *)

(** C4: in a running frame, an obstacle that, moved down by the frame's
    distance, is in the player's lane with its span meeting the car's
    box ends the run in that frame: the phase becomes [gameover], the
    obstacle is no longer among the items, and the high score becomes
    the larger of its old value and the score the frame has just
    written. *)
Theorem C4_obstacle_hit_ends_run
    (height r1 r2 t : Q) (s : State) (o : Item) :
  gameState s = running ->
  fresh_ids s ->
  In o (itemsRef s) ->
  type o = obstacle ->
  lane o = laneRef s ->
  carTop height < y o + frameDistance t s + ITEM_HEIGHT ->
  y o + frameDistance t s < carBottom height ->
  gameState (tick height r1 r2 t s) = gameover
  /\ ~ In (id o) (map id (itemsRef (tick height r1 r2 t s)))
  /\ ~ In (id o) (map id (items (tick height r1 r2 t s)))
  /\ highScore (tick height r1 r2 t s)
     = Z.max (highScore s) (scoreRef (tick height r1 r2 t s))
  /\ score (tick height r1 r2 t s) = scoreRef (tick height r1 r2 t s).
Proof.
  intros Hrun Hfresh Hin Hob Hlane Htop Hbot.
  assert (Htouch : touches height (laneRef s) (frameDistance t s) o = true)
    by (apply touches_iff; auto).
  assert (Hhit : hitObstacle (sweep height t s) = true).
  { rewrite sweep_hitObstacle. apply existsb_exists. exists o.
    split; [exact Hin | apply fatal_iff; auto]. }
  destruct (tick_removes_touched height r1 r2 t s o Hrun Hfresh Hin Htouch)
    as [Hgone Hgone'].
  destruct (tick_score height r1 r2 t s Hrun) as (Hsr & Hsc & _).
  repeat split; auto.
  - rewrite (tick_gameState _ _ _ _ _ Hrun), Hhit. reflexivity.
  - rewrite Hsr. rewrite (tick_running _ _ _ _ _ Hrun), Hhit.
    pose proof (trySpawnItem_frame r1 r2 t (tickUpdate height t s)) as F.
    cbv zeta in F. destruct F as (_ & _ & _ & _ & Hscr & Hhs & _).
    simpl. rewrite Hscr, Hhs. reflexivity.
  - congruence.
Qed.

(** C4 at the frame of [openingRun] that hits the obstacle. *)
Lemma C4_obstacle_hit_ends_run_witness :
  gameState (tick 800 0.5 0.5 2800 openingRun) = gameover
  /\ ~ In 1%Z (map id (itemsRef (tick 800 0.5 0.5 2800 openingRun)))
  /\ highScore (tick 800 0.5 0.5 2800 openingRun)
     = Z.max (highScore openingRun)
             (scoreRef (tick 800 0.5 0.5 2800 openingRun)).
Proof.
  pose proof (C4_obstacle_hit_ends_run 800 0.5 0.5 2800 openingRun
                {| id := 1; type := obstacle; lane := 1; y := - ITEM_HEIGHT |})
    as H.
  destruct H as (Hg & Hi & _ & Hh & _).
  - reflexivity.
  - fresh_ids_by_evaluation.
  - vm_compute. left. reflexivity.
  - reflexivity.
  - reflexivity.
  - by_evaluation.
  - by_evaluation.
  - exact (conj Hg (conj Hi Hh)).
Defined.

(** ** C5: a coin that reaches the car *)

(** C5: in a running frame, a coin that, moved down by the frame's
    distance, is in the player's lane with its span meeting the car's
    box is no longer among the items after the frame; it is one of the
    coins collected, and the frame adds to the score 120 for each coin
    collected, besides the survival bonus.  The coin does not raise
    the collision flag: the run ends in that frame exactly when some
    obstacle has reached the car. *)
Theorem C5_coin_pickup (height r1 r2 t : Q) (s : State) (c : Item) :
  gameState s = running ->
  fresh_ids s ->
  In c (itemsRef s) ->
  type c = coin ->
  lane c = laneRef s ->
  carTop height < y c + frameDistance t s + ITEM_HEIGHT ->
  y c + frameDistance t s < carBottom height ->
  ~ In (id c) (map id (itemsRef (tick height r1 r2 t s)))
  /\ ~ In (id c) (map id (items (tick height r1 r2 t s)))
  /\ In c (coinsCollected height t s)
  /\ scoreRef (tick height r1 r2 t s)
     = (scoreRef s
        + 120 * Z.of_nat (length (coinsCollected height t s))
        + JS.floor (frameDelta t s * 30))%Z
  /\ score (tick height r1 r2 t s) = scoreRef (tick height r1 r2 t s)
  /\ fatal height (laneRef s) (frameDistance t s) c = false
  /\ (gameState (tick height r1 r2 t s) = gameover <->
      exists o, In o (itemsRef s) /\ type o = obstacle
                /\ touches height (laneRef s) (frameDistance t s) o = true)
  /\ (gameState (tick height r1 r2 t s) = gameover
      \/ gameState (tick height r1 r2 t s) = running).
Proof.
  intros Hrun Hfresh Hin Hcoin Hlane Htop Hbot.
  assert (Htouch : touches height (laneRef s) (frameDistance t s) c = true)
    by (apply touches_iff; auto).
  destruct (tick_removes_touched height r1 r2 t s c Hrun Hfresh Hin Htouch)
    as [Hgone Hgone'].
  destruct (tick_score height r1 r2 t s Hrun) as (Hsr & Hsc & _).
  split; [exact Hgone |]. split; [exact Hgone' |].
  split; [apply filter_In; split; [exact Hin | apply collected_iff; auto] |].
  split; [rewrite Hsr; apply frameScore_eq |].
  split; [congruence |].
  split.
  { destruct (fatal height (laneRef s) (frameDistance t s) c) eqn:E; auto.
    apply fatal_iff in E. destruct E as [E _]. congruence. }
  rewrite (tick_gameState _ _ _ _ _ Hrun), sweep_hitObstacle.
  destruct (existsb (fatal height (laneRef s) (frameDistance t s))
                    (itemsRef s)) eqn:E.
  - split; [| left; reflexivity]. split; [| reflexivity]. intros _.
    apply existsb_exists in E. destruct E as (o & Ho & Hf).
    apply fatal_iff in Hf. exists o. tauto.
  - split; [| right; reflexivity]. split; [discriminate |].
    intros (o & Ho & Hty & Hto). exfalso.
    assert (Hex : existsb (fatal height (laneRef s) (frameDistance t s))
                          (itemsRef s) = true).
    { apply existsb_exists. exists o. split; [exact Ho |].
      apply fatal_iff. auto. }
    congruence.
Qed.

(** C5 at the frame of [openingCoinRun] that reaches the coin: 120 for
    the coin and 54 for 1.8 s of survival. *)
Lemma C5_coin_pickup_witness :
  ~ In 1%Z (map id (itemsRef (tick 800 0.5 0.5 2800 openingCoinRun)))
  /\ scoreRef (tick 800 0.5 0.5 2800 openingCoinRun)
     = (scoreRef openingCoinRun + 120 * 1 + 54)%Z
  /\ gameState (tick 800 0.5 0.5 2800 openingCoinRun) = running.
Proof.
  pose proof (C5_coin_pickup 800 0.5 0.5 2800 openingCoinRun
                {| id := 1; type := coin; lane := 1; y := - ITEM_HEIGHT |})
    as H.
  destruct H as (Hi & _ & _ & Hs & _).
  - reflexivity.
  - fresh_ids_by_evaluation.
  - vm_compute. left. reflexivity.
  - reflexivity.
  - reflexivity.
  - by_evaluation.
  - by_evaluation.
  - split; [exact Hi |]. split; [| reflexivity].
    rewrite Hs. vm_compute. reflexivity.
Defined.

(** ** C6: starting and restarting *)

(** C6: whatever the state, and so whatever the phase, [startGame]
    leaves score 0, speed [BASE_SPEED], elapsed time 0, no items, the
    player in lane 1, phase [running], and both scheduling timestamps
    at 0, in the [useState] cells and the [useRef] cells alike; starting
    twice in a row gives the state that starting once gives. *)
Theorem C6_startGame_resets (s : State) :
  score (startGame s) = 0%Z
  /\ scoreRef (startGame s) = 0%Z
  /\ speed (startGame s) = BASE_SPEED
  /\ speedRef (startGame s) = inject_Z BASE_SPEED
  /\ elapsedRef (startGame s) = 0
  /\ items (startGame s) = []
  /\ itemsRef (startGame s) = []
  /\ laneIndex (startGame s) = 1%Z
  /\ laneRef (startGame s) = 1%Z
  /\ gameState (startGame s) = running
  /\ lastSpawnRef (startGame s) = 0
  /\ lastTimeRef (startGame s) = 0
  /\ startGame (startGame s) = startGame s
  /\ startGame s
     = mkState running 1 [] 0 (highScore s) BASE_SPEED [] 1 0
         (inject_Z BASE_SPEED) 0 0 0 (nextIdRef s).
Proof.
  repeat split; reflexivity.
Qed.

(** ** C7: score and speed within a run *)

(** C7: take a run, that is a session of frames and lane commands that
    opens with [startGame] and holds no further start command, whose
    frames carry non-decreasing timestamps.  Stop it at any point, then
    let it go on: neither the score nor the speed, in the [useRef] cells
    or in the [useState] cells shown on screen, is lower afterwards than
    it was at the stop. *)
Theorem C7_score_and_speed_never_decrease
    (height : Q) (s0 : State) (before after : list Event) :
  singleRun (before ++ after) ->
  Sorted Qle (timestamps (before ++ after)) ->
  (scoreRef (play height before (startGame s0))
   <= scoreRef (play height after (play height before (startGame s0))))%Z
  /\ (score (play height before (startGame s0))
      <= score (play height after (play height before (startGame s0))))%Z
  /\ speedRef (play height before (startGame s0))
     <= speedRef (play height after (play height before (startGame s0)))
  /\ (speed (play height before (startGame s0))
      <= speed (play height after (play height before (startGame s0))))%Z.
Proof.
  intros Hrun Hsorted.
  apply Sorted_StronglySorted in Hsorted;
    [| intros a b c; apply Qle_trans].
  apply Forall_app in Hrun. destruct Hrun as [Hrun1 Hrun2].
  assert (Hclock : clock_ok (startGame s0) (before ++ after))
    by (left; reflexivity).
  assert (Hsync : synced (startGame s0)) by (repeat split; reflexivity).
  destruct (play_run height before after (startGame s0)
              Hrun1 Hsorted Hclock Hsync) as (Hsorted' & Hclock' & Hsync' & _).
  rewrite <- (app_nil_r after) in Hsorted', Hclock'.
  destruct (play_run height after [] _ Hrun2 Hsorted' Hclock' Hsync')
    as (_ & _ & _ & Hmono).
  exact Hmono.
Qed.

(** C7 on a run of two frames and a lane command. *)
Lemma C7_score_and_speed_never_decrease_witness :
  singleRun ([Frame 0.5 0.5 1000; MoveLeft] ++ [Frame 0.5 0.5 2800])
  /\ Sorted Qle
       (timestamps ([Frame 0.5 0.5 1000; MoveLeft] ++ [Frame 0.5 0.5 2800]))
  /\ (scoreRef (play 800 [Frame 0.5 0.5 1000; MoveLeft]
                  (startGame initialState))
      <= scoreRef (play 800 [Frame 0.5 0.5 2800]
                     (play 800 [Frame 0.5 0.5 1000; MoveLeft]
                        (startGame initialState))))%Z.
Proof.
  assert (Hrun : singleRun
                   ([Frame 0.5 0.5 1000; MoveLeft] ++ [Frame 0.5 0.5 2800]))
    by (repeat constructor).
  assert (Hsorted :
            Sorted Qle
              (timestamps
                 ([Frame 0.5 0.5 1000; MoveLeft] ++ [Frame 0.5 0.5 2800]))).
  { simpl. constructor; [constructor; constructor | constructor].
    by_evaluation. }
  split; [exact Hrun |]. split; [exact Hsorted |].
  apply (C7_score_and_speed_never_decrease 800 initialState
           [Frame 0.5 0.5 1000; MoveLeft] [Frame 0.5 0.5 2800] Hrun Hsorted).
Defined.

(** ** C8: the lane index stays on the road *)

(** C8, as stated, fails.  At the start of a run the player is in lane
    1; a move to the right takes the player to lane 2, which is not in
    the half-open range from 0 to [LANES - 1 = 2]. *)
Lemma C8_counterexample :
  reachable 800 (startGame initialState)
  /\ laneIndex (startGame initialState) = 1%Z
  /\ laneIndex (moveRight (startGame initialState)) = 2%Z
  /\ ~ (0 <= laneIndex (moveRight (startGame initialState)) < LANES - 1)%Z.
Proof.
  split; [| split; [| split]].
  - exact (reachable_step 800 initialState Start (reachable_init 800)).
  - reflexivity.
  - reflexivity.
  - vm_compute. intros [_ H]. discriminate.
Qed.

(** C8, amended: the lanes are [0 .. LANES - 1], both ends included.
    In every reachable state the lane index is one of them; [moveLeft]
    takes one off it and [moveRight] adds one to it, except at the edge
    in the way, where the command leaves it as it is; so the index
    after a command is again a lane. *)
Theorem C8_lane_stays_in_range (height : Q) (s : State) :
  reachable height s ->
  (0 <= laneIndex s <= LANES - 1)%Z
  /\ laneRef s = laneIndex s
  /\ laneIndex (moveLeft s)
     = (if (laneIndex s =? 0)%Z then laneIndex s else laneIndex s - 1)%Z
  /\ laneIndex (moveRight s)
     = (if (laneIndex s =? LANES - 1)%Z then laneIndex s
        else laneIndex s + 1)%Z
  /\ (0 <= laneIndex (moveLeft s) <= LANES - 1)%Z
  /\ (0 <= laneIndex (moveRight s) <= LANES - 1)%Z
  /\ laneRef (moveLeft s) = laneIndex (moveLeft s)
  /\ laneRef (moveRight s) = laneIndex (moveRight s).
Proof.
  intros Hreach.
  destruct (reachable_lane height s Hreach) as [Hrange Href].
  split; [exact Hrange |]. split; [exact Href |].
  unfold moveLeft, moveRight, updateLane, clamp, LANES in *.
  cbn [laneIndex laneRef].
  destruct (Z.eqb_spec (laneIndex s) 0);
    destruct (Z.eqb_spec (laneIndex s) (3 - 1)); repeat split; lia.
Qed.

(** The amended C8 at the start of a run. *)
Lemma C8_lane_stays_in_range_witness :
  reachable 800 (startGame initialState)
  /\ (0 <= laneIndex (moveRight (startGame initialState)) <= LANES - 1)%Z.
Proof.
  assert (Hreach : reachable 800 (startGame initialState))
    by exact (reachable_step 800 initialState Start (reachable_init 800)).
  split; [exact Hreach |].
  apply (C8_lane_stays_in_range 800 (startGame initialState) Hreach).
Defined.

(** ** C9: an obstacle that jumps over the car *)

(** C9: the loop looks at an item only where the frame puts it.  In a
    running frame, an obstacle of the player's lane that was entirely
    above the car's box and lands entirely below it, without leaving
    the window, is kept at its new position and raises no collision:
    unless another item is hit, the flag stays down and the run goes
    on.  Such a frame scrolls at least [CAR_HEIGHT + ITEM_HEIGHT = 96]
    units. *)
Theorem C9_obstacle_tunnels
    (height r1 r2 t : Q) (s : State) (o : Item) :
  gameState s = running ->
  In o (itemsRef s) ->
  type o = obstacle ->
  lane o = laneRef s ->
  y o + ITEM_HEIGHT <= carTop height ->
  carBottom height <= y o + frameDistance t s ->
  y o + frameDistance t s <= height + ITEM_HEIGHT ->
  CAR_HEIGHT + ITEM_HEIGHT <= frameDistance t s
  /\ fatal height (laneRef s) (frameDistance t s) o = false
  /\ In (advance (frameDistance t s) o) (itemsRef (tick height r1 r2 t s))
  /\ ((forall x, In x (itemsRef s) -> x <> o ->
                 fatal height (laneRef s) (frameDistance t s) x = false) ->
      hitObstacle (sweep height t s) = false
      /\ gameState (tick height r1 r2 t s) = running).
Proof.
  intros Hrun Hin Hob Hlane Habove Hbelow Hon.
  pose proof (carTop_val height) as Ht.
  pose proof (carBottom_val height) as Hb.
  assert (Hnt : touches height (laneRef s) (frameDistance t s) o = false).
  { unfold touches.
    assert (E : JS.ltb (y o + frameDistance t s) (carBottom height) = false)
      by (apply ltb_ge; exact Hbelow).
    rewrite E. now rewrite !andb_false_r. }
  assert (Hnf : fatal height (laneRef s) (frameDistance t s) o = false).
  { unfold fatal. rewrite Hnt. now rewrite andb_false_r. }
  assert (Hkept : kept height (laneRef s) (frameDistance t s) o = true).
  { unfold kept, offscreen. rewrite Hnt.
    assert (E : JS.gtb (y o + frameDistance t s) (height + ITEM_HEIGHT)
                = false) by (apply gtb_le; exact Hon).
    rewrite E. reflexivity. }
  split; [unfold CAR_HEIGHT, ITEM_HEIGHT in *; lra |].
  split; [exact Hnf |].
  split.
  - destruct (tick_itemsRef height r1 r2 t s Hrun) as (Hi & _). rewrite Hi.
    assert (Hup : In (advance (frameDistance t s) o)
                     (itemsRef (tickUpdate height t s))).
    { simpl. rewrite sweep_updatedItems. apply in_map.
      apply filter_In. auto. }
    destruct (trySpawnItem_cases r1 r2 t (tickUpdate height t s))
      as [[_ ->] | (_ & _ & Hits & _)]; [exact Hup |].
    rewrite Hits. apply in_or_app. left. exact Hup.
  - intros Hothers.
    assert (Hflag : hitObstacle (sweep height t s) = false).
    { rewrite sweep_hitObstacle. apply not_true_iff_false. intros Hex.
      apply existsb_exists in Hex. destruct Hex as (x & Hx & Hf).
      destruct (Item_eq_dec x o) as [-> | Hne]; [congruence |].
      rewrite (Hothers x Hx Hne) in Hf. discriminate. }
    split; [exact Hflag |].
    rewrite (tick_gameState _ _ _ _ _ Hrun), Hflag. reflexivity.
Qed.

(** C9 at the frame of [openingRun] that comes 1.93 s after the first:
    the road scrolls 732.049 units, the obstacle goes from [-44] to
    [688.049], past the car's box [634 .. 686], and the run goes on. *)
Lemma C9_obstacle_tunnels_witness :
  CAR_HEIGHT + ITEM_HEIGHT < frameDistance 2930 openingRun
  /\ In (advance (frameDistance 2930 openingRun)
           {| id := 1; type := obstacle; lane := 1; y := - ITEM_HEIGHT |})
        (itemsRef (tick 800 0.5 0.5 2930 openingRun))
  /\ hitObstacle (sweep 800 2930 openingRun) = false
  /\ gameState (tick 800 0.5 0.5 2930 openingRun) = running.
Proof.
  pose proof (C9_obstacle_tunnels 800 0.5 0.5 2930 openingRun
                {| id := 1; type := obstacle; lane := 1; y := - ITEM_HEIGHT |})
    as H.
  destruct H as (_ & _ & Hi & Hrest).
  - reflexivity.
  - vm_compute. left. reflexivity.
  - reflexivity.
  - reflexivity.
  - by_evaluation.
  - by_evaluation.
  - by_evaluation.
  - split; [by_evaluation |]. split; [exact Hi |]. apply Hrest.
    intros x Hx Hne. vm_compute in Hx. destruct Hx as [<- | []].
    exfalso. apply Hne. reflexivity.
Defined.

(** ** C10: frames shorter than a thirtieth of a second *)

(** C10, as stated, fails.  Take two consecutive frames of a run with
    the timestamps 33.333333333333336 and 66.66666666666667.  The
    [delta] of the later one, as the code computes it, is the binary64
    number 4803839602528529 / 2^57, printed 0.03333333333333333, which
    is also what [1 / 30] evaluates to.  It is not negative and it is
    below the number 1/30; its product with 30 rounds to 1, so the
    survival bonus is 1, and the score goes up by 1 with no coin picked
    up. *)
Lemma C10_counterexample :
  f64_value boundaryDelta = Some (4803839602528529 # 144115188075855872)
  /\ 0 <= 4803839602528529 # 144115188075855872
  /\ 4803839602528529 # 144115188075855872 < 1 # 30
  /\ boundaryDelta = (1 / 30)%float
  /\ survivalBonus64 boundaryDelta = Some 1%Z
  /\ frameScore64 0 0 boundaryDelta = Some 1%Z.
Proof.
  repeat split; vm_compute; try reflexivity; discriminate.
Qed.

(** C10, amended: in a frame whose [delta] is not negative and is
    below the binary64 value of [1 / 30], which is
    4803839602528529 / 2^57, the survival bonus
    [Math.floor(delta * 30)] is 0, and the frame changes the score by
    the coin bonus alone.  That value is itself below the number 1/30,
    and is the [delta] of the counterexample: there the bonus is 1. *)
Theorem C10_no_survival_bonus_below_thirtieth
    (lastTimeRef timeMs : float) (scoreRef scoreDelta : Z) :
  PrimFloat.leb 0 (frameDelta64 lastTimeRef timeMs) = true ->
  PrimFloat.ltb (frameDelta64 lastTimeRef timeMs) (1 / 30) = true ->
  survivalBonus64 (frameDelta64 lastTimeRef timeMs) = Some 0%Z
  /\ frameScore64 scoreRef scoreDelta (frameDelta64 lastTimeRef timeMs)
     = Some (scoreRef + scoreDelta)%Z.
Proof.
  intros Hlo Hhi.
  pose proof (mul30_below_one _ Hlo Hhi) as Hprod.
  assert (Hbonus : survivalBonus64 (frameDelta64 lastTimeRef timeMs)
                   = Some 0%Z).
  { unfold survivalBonus64. apply floor_unit64; [| exact Hprod].
    apply mul_nonneg64; assumption. }
  split; [exact Hbonus |].
  unfold frameScore64. rewrite Hbonus. f_equal.
  destruct (Z.eqb_spec scoreDelta 0); lia.
Qed.

(** The amended C10 on frames at 1000 ms and 1016 ms, with a coin
    picked up in the later one. *)
Lemma C10_no_survival_bonus_below_thirtieth_witness :
  frameScore64 7 120 (frameDelta64 1000 1016) = Some 127%Z.
Proof.
  apply (C10_no_survival_bonus_below_thirtieth 1000 1016 7 120);
    vm_compute; reflexivity.
Defined.

(** * Further properties of the code *)

(** ** The spawn interval *)

Lemma floor_ge (n : Z) (x : Q) : (n <= JS.floor x)%Z <-> inject_Z n <= x.
Proof.
  unfold JS.floor. split.
  - intros H. eapply Qle_trans; [| apply Qfloor_le].
    rewrite <- Zle_Qle. exact H.
  - intros H. rewrite <- (Qfloor_Z n). apply Qfloor_resp_le. exact H.
Qed.

(** X1: the interval between spawns shrinks as the run gets older, from
    [SPAWN_MAX] down to [SPAWN_MIN]; it is [SPAWN_MIN] exactly from the
    54th second on. *)
Theorem X1_spawn_interval_ramp (s1 s2 : State) :
  0 <= elapsedRef s1 ->
  elapsedRef s1 <= elapsedRef s2 ->
  (SPAWN_MIN <= spawnInterval s2)%Z
  /\ (spawnInterval s2 <= spawnInterval s1)%Z
  /\ (spawnInterval s1 <= SPAWN_MAX)%Z
  /\ (spawnInterval s2 = SPAWN_MIN <-> 54 <= elapsedRef s2).
Proof.
  intros H0 H12. unfold spawnInterval, SPAWN_MIN, SPAWN_MAX.
  assert (F1 : (0 <= JS.floor (elapsedRef s1 * 10))%Z)
    by (apply floor_ge; change (inject_Z 0) with 0; lra).
  assert (F12 : (JS.floor (elapsedRef s1 * 10)
                 <= JS.floor (elapsedRef s2 * 10))%Z)
    by (apply Qfloor_resp_le; lra).
  split; [lia |]. split; [lia |]. split; [lia |].
  pose proof (floor_ge 540 (elapsedRef s2 * 10)) as F.
  assert (E : inject_Z 540 == 540) by reflexivity.
  split.
  - intros Hmin.
    assert (540 <= JS.floor (elapsedRef s2 * 10))%Z by lia.
    apply F in H. lra.
  - intros H54.
    assert (540 <= JS.floor (elapsedRef s2 * 10))%Z by (apply F; lra).
    lia.
Qed.

(** X1 on the run before and after the crash frame: 900 ms, then
    882 ms. *)
Lemma X1_spawn_interval_ramp_witness :
  spawnInterval openingRun = 900%Z /\ spawnInterval crashedRun = 882%Z
  /\ (spawnInterval crashedRun <= spawnInterval openingRun)%Z.
Proof.
  split; [reflexivity |]. split; [reflexivity |].
  apply (X1_spawn_interval_ramp openingRun crashedRun); by_evaluation.
Defined.

(** ** Spawn lanes *)

Lemma spawnLane_range (rnd : Q) :
  0 <= rnd -> rnd < 1 -> (0 <= spawnLane rnd <= LANES - 1)%Z.
Proof.
  intros H0 H1. unfold spawnLane, LANES.
  change (inject_Z 3) with 3. split.
  - apply floor_ge. change (inject_Z 0) with 0. lra.
  - assert (H : ~ (3 <= JS.floor (rnd * 3))%Z).
    { intros H. apply floor_ge in H. change (inject_Z 3) with 3 in H. lra. }
    lia.
Qed.

Lemma trySpawnItem_validLanes (r1 r2 t : Q) (s : State) :
  0 <= r1 -> r1 < 1 -> validLanes s -> validLanes (trySpawnItem r1 r2 t s).
Proof.
  intros H0 H1 Hv. unfold validLanes in *.
  destruct (trySpawnItem_cases r1 r2 t s)
    as [[_ ->] | (_ & _ & -> & _)]; [exact Hv |].
  apply Forall_app. split; [exact Hv |].
  constructor; [| constructor]. simpl. apply spawnLane_range; assumption.
Qed.

Lemma tick_validLanes (height r1 r2 t : Q) (s : State) :
  0 <= r1 -> r1 < 1 -> validLanes s -> validLanes (tick height r1 r2 t s).
Proof.
  intros H0 H1 Hv.
  destruct (GameState_eq_dec (gameState s) running) as [Hrun | Hidle];
    [| rewrite (tick_idle _ _ _ _ _ Hidle); exact Hv].
  unfold validLanes.
  destruct (tick_itemsRef height r1 r2 t s Hrun) as (-> & _).
  apply trySpawnItem_validLanes; try assumption.
  unfold validLanes in *. simpl. rewrite sweep_updatedItems.
  rewrite Forall_forall in *. intros x Hx.
  apply in_map_iff in Hx. destruct Hx as (it & <- & Hit).
  apply filter_In in Hit. simpl. apply Hv. tauto.
Qed.

(** X2: a draw of [Math.random()], at least 0 and below 1, selects one
    of the lanes [0 .. LANES - 1]; so, in any session whose lane draws
    are such values, every item is in one of these lanes, whatever the
    commands, the timestamps and the restarts. *)
Theorem X2_items_stay_in_lanes (height : Q) (evs : list Event) :
  Forall drawInRange evs ->
  validLanes (play height evs initialState).
Proof.
  intros Hdraws.
  assert (Hgen : forall s, validLanes s -> validLanes (play height evs s)).
  { induction Hdraws as [| e evs He _ IH]; intros s Hs; simpl; [exact Hs |].
    apply IH. destruct e as [r1 r2 t | | |]; simpl in *.
    - destruct He. apply tick_validLanes; assumption.
    - exact Hs.
    - exact Hs.
    - constructor. }
  apply Hgen. constructor.
Qed.

(** X2 on the opening of a run and its crash frame. *)
Lemma X2_items_stay_in_lanes_witness :
  validLanes
    (play 800 [Start; Frame 0.5 0.5 1000; Frame 0.5 0.5 2800] initialState).
Proof.
  apply (X2_items_stay_in_lanes 800
           [Start; Frame 0.5 0.5 1000; Frame 0.5 0.5 2800]).
  repeat constructor; by_evaluation.
Defined.

(** ** Spawn throttling *)

(** What an event other than a start command does to the id counter
    and to [lastSpawnRef]: it leaves both, or it is a frame that
    creates an item, [SPAWN_MIN] ms or more after the last one. *)
Lemma handle_spawn_clock (height : Q) (s : State) (e : Event) :
  isStart e = false ->
  (nextIdRef (handle height s e) = nextIdRef s
   /\ lastSpawnRef (handle height s e) = lastSpawnRef s)
  \/ (exists r1 r2 t,
        e = Frame r1 r2 t
        /\ nextIdRef (handle height s e) = (nextIdRef s + 1)%Z
        /\ lastSpawnRef (handle height s e) = t
        /\ inject_Z (spawnInterval (tickUpdate height t s))
           <= t - lastSpawnRef s).
Proof.
  intros He. destruct e as [r1 r2 t | | |]; simpl in *;
    try discriminate; try (left; split; reflexivity).
  destruct (GameState_eq_dec (gameState s) running) as [Hrun | Hidle];
    [| rewrite (tick_idle _ _ _ _ _ Hidle); left; split; reflexivity].
  destruct (tick_itemsRef height r1 r2 t s Hrun) as (_ & _ & -> & ->).
  destruct (trySpawnItem_cases r1 r2 t (tickUpdate height t s))
    as [[_ ->] | (Hdue & _ & _ & _ & -> & ->)].
  - left. split; reflexivity.
  - right. exists r1, r2, t. repeat split.
    unfold spawnTooSoon in Hdue. apply ltb_ge in Hdue. exact Hdue.
Qed.

Lemma last_cons (l : list Q) (a d : Q) : last (a :: l) d = last l a.
Proof.
  revert a d. induction l as [| b l IH]; intros a d; [reflexivity |].
  change (last (a :: b :: l) d) with (last (b :: l) d).
  rewrite !IH. reflexivity.
Qed.

Lemma throttled_trans (a b c : Q) :
  throttled a b -> throttled b c -> throttled a c.
Proof.
  unfold throttled, SPAWN_MIN. change (inject_Z 360) with 360.
  intros Hab Hbc. lra.
Qed.

(** X3: within a run, the frames that create an item are at least
    [SPAWN_MIN] ms apart.  Take any state and any session without a
    start command, whatever its timestamps: the timestamp held in
    [lastSpawnRef], followed by the timestamps of the frames that
    create an item, is a list in which every entry is [SPAWN_MIN] ms or
    more after every earlier one; and at the end [lastSpawnRef] holds
    the last entry.  A start command zeroes [lastSpawnRef], so the
    bound does not reach across a restart.  (After the first spawn of a
    run [lastSpawnRef] is 360 or more, so whenever the difference
    [timeMs - lastSpawnRef.current] is between 0 and [SPAWN_MIN] the two
    timestamps are within a factor 2 of each other and their binary64
    difference is exact: the rounding of the code does not let a frame
    through early.) *)
Theorem X3_spawns_are_throttled_within_a_run
    (height : Q) (s : State) (evs : list Event) :
  singleRun evs ->
  StronglySorted throttled (lastSpawnRef s :: spawnTimes height evs s)
  /\ lastSpawnRef (play height evs s)
     = last (spawnTimes height evs s) (lastSpawnRef s).
Proof.
  intros Hrun. revert s.
  induction Hrun as [| e evs He _ IH]; intros s.
  - simpl. split; [repeat constructor | reflexivity].
  - destruct (handle_spawn_clock height s e He)
      as [[Hid Hlast] | (r1 & r2 & t & -> & Hid & Hlast & Hdue)].
    + assert (Hsame : spawnTimes height (e :: evs) s
                      = spawnTimes height evs (handle height s e)).
      { destruct e as [r1 r2 t | | |]; try reflexivity.
        simpl in *. rewrite Hid, Z.eqb_refl. reflexivity. }
      rewrite Hsame. simpl play. rewrite <- Hlast. apply IH.
    + assert (Hnew : spawnTimes height (Frame r1 r2 t :: evs) s
                     = t :: spawnTimes height evs (tick height r1 r2 t s)).
      { simpl in *. rewrite Hid.
        destruct (Z.eqb_spec (nextIdRef s + 1) (nextIdRef s)); [lia |].
        reflexivity. }
      rewrite Hnew. simpl play. simpl handle in *.
      destruct (IH (tick height r1 r2 t s)) as [Hsorted Hend].
      rewrite Hlast in Hsorted, Hend.
      assert (Hfirst : throttled (lastSpawnRef s) t).
      { unfold throttled. eapply Qle_trans; [| exact Hdue].
        rewrite <- Zle_Qle. apply spawnInterval_min. }
      split.
      * constructor; [exact Hsorted |].
        constructor; [exact Hfirst |].
        inversion Hsorted as [| ? ? _ Hall]; subst.
        eapply Forall_impl; [| exact Hall].
        intros x Hx. exact (throttled_trans _ _ _ Hfirst Hx).
      * rewrite Hend, last_cons. reflexivity.
Qed.

(** X3 on the first seconds of a run: of the frames at 1000, 1100,
    1300, 2000 and 2100 ms, those at 1000 and 2000 ms create an item. *)
Lemma X3_spawns_are_throttled_within_a_run_witness :
  StronglySorted throttled
    (0 :: spawnTimes 800
            [Frame 0.5 0.5 1000; Frame 0.5 0.5 1100; MoveLeft;
             Frame 0.5 0.5 1300; Frame 0.5 0.5 2000; Frame 0.5 0.5 2100]
            (startGame initialState))
  /\ spawnTimes 800
       [Frame 0.5 0.5 1000; Frame 0.5 0.5 1100; MoveLeft;
        Frame 0.5 0.5 1300; Frame 0.5 0.5 2000; Frame 0.5 0.5 2100]
       (startGame initialState)
     = [1000; 2000].
Proof.
  split.
  - apply (X3_spawns_are_throttled_within_a_run 800 (startGame initialState)
             [Frame 0.5 0.5 1000; Frame 0.5 0.5 1100; MoveLeft;
              Frame 0.5 0.5 1300; Frame 0.5 0.5 2000; Frame 0.5 0.5 2100]).
    repeat constructor.
  - vm_compute. reflexivity.
Defined.

(** The bound of X3 stops at a start command: the frame at 2800 ms, in
    which the car crashes, creates an item, and so does the frame at
    2816 ms, the first of the next run. *)
Example spawns_across_a_restart :
  gameState (tick 800 0.5 0.5 2800 openingRun) = gameover
  /\ spawnTimes 800 [Frame 0.5 0.5 2800; Start; Frame 0.5 0.5 2816] openingRun
     = [2800; 2816].
Proof.
  split; vm_compute; reflexivity.
Qed.

(** ** Ids *)

Lemma ids_sorted_filter (f : Item -> bool) (l : list Item) :
  StronglySorted Z.lt (map id l) ->
  StronglySorted Z.lt (map id (filter f l)).
Proof.
  induction l as [| a l IH]; simpl; intros Hs; [constructor |].
  inversion Hs as [| ? ? Hrest Hall]; subst.
  destruct (f a); simpl; [| auto].
  constructor; [auto |].
  rewrite Forall_forall in *. intros i Hi. apply Hall.
  apply in_map_iff in Hi. destruct Hi as (x & <- & Hx).
  apply filter_In in Hx. apply in_map. tauto.
Qed.

Lemma ids_sorted_snoc (l : list Z) (x : Z) :
  StronglySorted Z.lt l -> Forall (fun i => (i < x)%Z) l ->
  StronglySorted Z.lt (l ++ [x]).
Proof.
  induction l as [| a l IH]; simpl; intros Hs Hall.
  - repeat constructor.
  - inversion Hs as [| ? ? Hrest Ha]; subst.
    inversion Hall as [| ? ? Hax Hall']; subst.
    constructor; [auto |].
    apply Forall_app. split; [exact Ha | repeat constructor; exact Hax].
Qed.

Lemma trySpawnItem_ordered_ids (r1 r2 t : Q) (s : State) :
  ordered_ids s -> ordered_ids (trySpawnItem r1 r2 t s).
Proof.
  intros (Hs & Hall & Hone).
  destruct (trySpawnItem_cases r1 r2 t s)
    as [[_ ->] | (_ & _ & Hits & _ & _ & Hid)]; [repeat split; assumption |].
  unfold ordered_ids. rewrite Hits, Hid, map_app. simpl.
  split; [| split; [| lia]].
  - apply ids_sorted_snoc; [exact Hs |].
    rewrite Forall_forall in *. intros i Hi.
    apply in_map_iff in Hi. destruct Hi as (x & <- & Hx).
    apply Hall in Hx. lia.
  - apply Forall_app. split.
    + eapply Forall_impl; [| exact Hall]. intros it Hit. simpl in *. lia.
    + repeat constructor; simpl; lia.
Qed.

Lemma tick_ordered_ids (height r1 r2 t : Q) (s : State) :
  ordered_ids s -> ordered_ids (tick height r1 r2 t s).
Proof.
  intros Ho.
  destruct (GameState_eq_dec (gameState s) running) as [Hrun | Hidle];
    [| rewrite (tick_idle _ _ _ _ _ Hidle); exact Ho].
  assert (Hup : ordered_ids (tickUpdate height t s)).
  { destruct Ho as (Hs & Hall & Hone). unfold ordered_ids. simpl.
    rewrite sweep_ids. split; [apply ids_sorted_filter, Hs |].
    split; [| exact Hone].
    rewrite sweep_updatedItems. rewrite Forall_forall in *.
    intros x Hx. apply in_map_iff in Hx. destruct Hx as (it & <- & Hit).
    apply filter_In in Hit. simpl. apply Hall. tauto. }
  apply (trySpawnItem_ordered_ids r1 r2 t) in Hup.
  destruct (tick_itemsRef height r1 r2 t s Hrun) as (Hi & _ & _ & Hn).
  unfold ordered_ids in *. rewrite Hi, Hn. exact Hup.
Qed.

(** The ids after one event: those that were there, or the counter's
    value; and the counter does not go back. *)
Lemma handle_ids (height : Q) (s : State) (e : Event) :
  (nextIdRef s <= nextIdRef (handle height s e))%Z
  /\ forall i, In i (map id (itemsRef (handle height s e))) ->
               In i (map id (itemsRef s)) \/ i = nextIdRef s.
Proof.
  destruct e as [r1 r2 t | | |]; simpl; try (split; [lia | tauto]).
  destruct (GameState_eq_dec (gameState s) running) as [Hrun | Hidle];
    [| rewrite (tick_idle _ _ _ _ _ Hidle); split; [lia | tauto]].
  destruct (tick_itemsRef height r1 r2 t s Hrun) as (Hi & _ & _ & Hn).
  rewrite Hi, Hn. split.
  - destruct (trySpawnItem_cases r1 r2 t (tickUpdate height t s))
      as [[_ ->] | (_ & _ & _ & _ & _ & ->)]; simpl; lia.
  - intros i Hin. apply trySpawnItem_ids in Hin. simpl in Hin.
    destruct Hin as [Hin | ->]; [left | right; reflexivity].
    rewrite sweep_ids in Hin.
    apply in_map_iff in Hin. destruct Hin as (x & <- & Hx).
    apply filter_In in Hx. apply in_map. tauto.
Qed.

Lemma handle_ordered_ids (height : Q) (s : State) (e : Event) :
  ordered_ids s -> ordered_ids (handle height s e).
Proof.
  intros Ho. destruct e as [r1 r2 t | | |]; simpl.
  - apply tick_ordered_ids, Ho.
  - exact Ho.
  - exact Ho.
  - destruct Ho as (_ & _ & Hone). repeat split; simpl; auto; constructor.
Qed.

Lemma reachable_ordered_ids (height : Q) (s : State) :
  reachable height s -> ordered_ids s.
Proof.
  induction 1 as [| s e Hs IH].
  - repeat split; simpl; try constructor; lia.
  - apply handle_ordered_ids, IH.
Qed.

(** X4: ids are handed out once.  In every reachable state the items
    are listed by strictly increasing id, from 1 up and below the
    counter [nextIdRef]; and however the session goes on, restarts
    included, the counter never goes back and an id in use later is
    either one in use now or one the counter had not reached: the id of
    an item that is gone is not given again. *)
Theorem X4_ids_are_never_reused
    (height : Q) (s : State) (evs : list Event) :
  reachable height s ->
  ordered_ids s
  /\ ordered_ids (play height evs s)
  /\ (nextIdRef s <= nextIdRef (play height evs s))%Z
  /\ forall i, In i (map id (itemsRef (play height evs s))) ->
               In i (map id (itemsRef s)) \/ (nextIdRef s <= i)%Z.
Proof.
  intros Hreach.
  pose proof (reachable_ordered_ids height s Hreach) as Ho.
  split; [exact Ho |]. clear Hreach.
  revert s Ho. induction evs as [| e evs IH]; intros s Ho; simpl.
  - split; [exact Ho |]. split; [lia | tauto].
  - destruct (handle_ids height s e) as [Hn Hids].
    destruct (IH _ (handle_ordered_ids height s e Ho)) as (H1 & H2 & H3).
    split; [exact H1 |]. split; [lia |].
    intros i Hi. destruct (H3 i Hi) as [Hin | Hge]; [| right; lia].
    destruct (Hids i Hin) as [Hold | ->]; [left; exact Hold | right; lia].
Qed.

(** X4 from the crashed run through a restart and a new first frame:
    the new item gets id 3, not 1 again. *)
Lemma X4_ids_are_never_reused_witness :
  map id (itemsRef (play 800 [Start; Frame 0.5 0.5 4000] crashedRun)) = [3%Z]
  /\ (nextIdRef crashedRun
      <= nextIdRef (play 800 [Start; Frame 0.5 0.5 4000] crashedRun))%Z.
Proof.
  split; [reflexivity |].
  apply (X4_ids_are_never_reused 800 crashedRun
           [Start; Frame 0.5 0.5 4000] crashedRun_reachable).
Defined.

(** ** The high score *)

Lemma handle_highScore (height : Q) (s : State) (e : Event) :
  (highScore s <= highScore (handle height s e))%Z.
Proof.
  destruct e as [r1 r2 t | | |]; simpl; try lia.
  unfold tick. destruct (gameState s); try lia.
  pose proof (trySpawnItem_frame r1 r2 t (tickUpdate height t s)) as F.
  cbv zeta in F. destruct F as (_ & _ & _ & _ & _ & Hhs & _).
  destruct (hitObstacle (sweep height t s)); simpl; rewrite Hhs; simpl; lia.
Qed.

Lemma reachable_gameover_highScore (height : Q) (s : State) :
  reachable height s ->
  gameState s = gameover -> (scoreRef s <= highScore s)%Z.
Proof.
  induction 1 as [| s e Hs IH]; [discriminate |].
  destruct e as [r1 r2 t | | |]; simpl; try exact IH; try discriminate.
  destruct (GameState_eq_dec (gameState s) running) as [Hrun | Hidle];
    [| rewrite (tick_idle _ _ _ _ _ Hidle); exact IH].
  rewrite (tick_running _ _ _ _ _ Hrun).
  pose proof (trySpawnItem_frame r1 r2 t (tickUpdate height t s)) as F.
  cbv zeta in F. destruct F as (Hg & _).
  destruct (hitObstacle (sweep height t s)); simpl.
  - intros _. lia.
  - rewrite Hg. simpl. congruence.
Qed.

(** X5: the high score never goes down, whatever the session, restarts
    included; and whenever the game is over the high score is at least
    the score of the run that has just ended. *)
Theorem X5_high_score_only_grows
    (height : Q) (s : State) (evs : list Event) :
  reachable height s ->
  (highScore s <= highScore (play height evs s))%Z
  /\ (gameState (play height evs s) = gameover ->
      (scoreRef (play height evs s) <= highScore (play height evs s))%Z
      /\ score (play height evs s) = scoreRef (play height evs s)).
Proof.
  intros Hreach. split.
  - clear Hreach. revert s. induction evs as [| e evs IH]; intros s; simpl.
    + lia.
    + pose proof (handle_highScore height s e). specialize (IH (handle height s e)).
      lia.
  - intros Hover.
    pose proof (play_reachable height evs s Hreach) as Hr.
    split; [apply (reachable_gameover_highScore height _ Hr Hover) |].
    apply (reachable_synced height _ Hr).
Qed.

(** X5 from the crashed run, with its 54 points, through a restart. *)
Lemma X5_high_score_only_grows_witness :
  highScore crashedRun = 54%Z
  /\ (highScore crashedRun
      <= highScore (play 800 [Start; Frame 0.5 0.5 4000] crashedRun))%Z.
Proof.
  split; [reflexivity |].
  apply (X5_high_score_only_grows 800 crashedRun
           [Start; Frame 0.5 0.5 4000] crashedRun_reachable).
Defined.

(** ** Outside a run *)

Lemma same_but_lane_refl (s : State) : same_but_lane s s.
Proof. repeat split. Qed.

Lemma same_but_lane_trans (a b c : State) :
  same_but_lane a b -> same_but_lane b c -> same_but_lane a c.
Proof.
  unfold same_but_lane. intuition congruence.
Qed.

(** X6: outside a run, that is before the first start or after a crash,
    frames do nothing and lane commands move the car only: until a start
    command comes, the phase, the items, the score, the high score, the
    speed and the timestamps stay as they are. *)
Theorem X6_nothing_moves_outside_a_run
    (height : Q) (s : State) (evs : list Event) :
  gameState s <> running ->
  singleRun evs ->
  same_but_lane s (play height evs s).
Proof.
  intros Hidle Hrun. revert s Hidle.
  induction Hrun as [| e evs He _ IH]; intros s Hidle; simpl.
  - apply same_but_lane_refl.
  - assert (Hstep : same_but_lane s (handle height s e)).
    { destruct e as [r1 r2 t | | |]; simpl in *; try discriminate.
      - rewrite (tick_idle _ _ _ _ _ Hidle). apply same_but_lane_refl.
      - repeat split.
      - repeat split. }
    eapply same_but_lane_trans; [exact Hstep |].
    apply IH. destruct Hstep as (Hg & _). congruence.
Qed.

(** X6 after the crash: two frames and a swipe leave the 54 points and
    the item set as they were. *)
Lemma X6_nothing_moves_outside_a_run_witness :
  same_but_lane crashedRun
    (play 800 [Frame 0.5 0.5 2816; MoveLeft; Frame 0.5 0.5 9000] crashedRun).
Proof.
  apply (X6_nothing_moves_outside_a_run 800 crashedRun
           [Frame 0.5 0.5 2816; MoveLeft; Frame 0.5 0.5 9000]).
  - vm_compute. discriminate.
  - repeat constructor.
Defined.

(** ** Items on the road *)

Lemma kept_onscreen (height : Q) (pl : Z) (d : Q) (it : Item) :
  kept height pl d it = true -> y it + d <= height + ITEM_HEIGHT.
Proof.
  unfold kept, offscreen. intros H. apply andb_true_iff in H.
  destruct H as [H _]. apply negb_true_iff in H. apply gtb_le. exact H.
Qed.

Lemma tick_onscreen (height r1 r2 t : Q) (s : State) :
  0 <= height ->
  Forall (fun it => y it <= height + ITEM_HEIGHT) (itemsRef s) ->
  Forall (fun it => y it <= height + ITEM_HEIGHT)
         (itemsRef (tick height r1 r2 t s)).
Proof.
  intros Hh Hs.
  destruct (GameState_eq_dec (gameState s) running) as [Hrun | Hidle];
    [| rewrite (tick_idle _ _ _ _ _ Hidle); exact Hs].
  destruct (tick_itemsRef height r1 r2 t s Hrun) as (-> & _).
  assert (Hup : Forall (fun it => y it <= height + ITEM_HEIGHT)
                       (itemsRef (tickUpdate height t s))).
  { simpl. rewrite sweep_updatedItems. apply Forall_forall.
    intros x Hx. apply in_map_iff in Hx. destruct Hx as (it & <- & Hit).
    apply filter_In in Hit. simpl. apply (kept_onscreen _ _ _ _ (proj2 Hit)). }
  destruct (trySpawnItem_cases r1 r2 t (tickUpdate height t s))
    as [[_ ->] | (_ & _ & -> & _)]; [exact Hup |].
  apply Forall_app. split; [exact Hup |].
  repeat constructor. simpl. unfold ITEM_HEIGHT. lra.
Qed.

(** X7: no item stays below the window.  In every reachable state, on a
    window of height 0 or more, every item has its top edge at most
    [ITEM_HEIGHT] below the bottom of the window: an item that a frame
    would take further down is dropped by that frame. *)
Theorem X7_items_leave_at_the_bottom (height : Q) (s : State) :
  0 <= height ->
  reachable height s ->
  Forall (fun it => y it <= height + ITEM_HEIGHT) (itemsRef s)
  /\ Forall (fun it => y it <= height + ITEM_HEIGHT) (items s).
Proof.
  intros Hh Hreach.
  assert (H : Forall (fun it => y it <= height + ITEM_HEIGHT) (itemsRef s)).
  { induction Hreach as [| s e Hs IH]; [constructor |].
    destruct e as [r1 r2 t | | |]; simpl; try exact IH.
    - apply tick_onscreen; assumption.
    - constructor. }
  split; [exact H |].
  destruct (reachable_synced height s Hreach) as (-> & _). exact H.
Qed.

(** X7 on a frame that comes 2.4 s after the opening one: the obstacle
    would land at 877.6, beyond 844, and is dropped. *)
Lemma X7_items_leave_at_the_bottom_witness :
  Forall (fun it => y it <= 800 + ITEM_HEIGHT)
         (itemsRef (tick 800 0.5 0.5 3400 openingRun))
  /\ map id (itemsRef (tick 800 0.5 0.5 3400 openingRun)) = [2%Z].
Proof.
  split; [| reflexivity].
  apply (X7_items_leave_at_the_bottom 800 (tick 800 0.5 0.5 3400 openingRun)).
  - by_evaluation.
  - exact (reachable_step 800 openingRun (Frame 0.5 0.5 3400)
             openingRun_reachable).
Defined.

(** X8: a running frame rebuilds the item list from the old one.  The
    items it keeps come first, in their old order, each with its id,
    type and lane and with [y] increased by the frame's distance; at
    most one item follows, the one just spawned.  So a frame never
    reorders or duplicates items and never adds more than one. *)
Theorem X8_frame_rebuilds_item_list
    (height r1 r2 t : Q) (s : State) :
  gameState s = running ->
  (itemsRef (tick height r1 r2 t s)
   = map (advance (frameDistance t s))
         (filter (kept height (laneRef s) (frameDistance t s)) (itemsRef s))
   \/ itemsRef (tick height r1 r2 t s)
      = map (advance (frameDistance t s))
            (filter (kept height (laneRef s) (frameDistance t s))
                    (itemsRef s))
        ++ [ {| id := nextIdRef s; type := spawnType r2;
                lane := spawnLane r1; y := - ITEM_HEIGHT |} ])
  /\ (length (itemsRef (tick height r1 r2 t s))
      <= length (itemsRef s) + 1)%nat
  /\ items (tick height r1 r2 t s) = itemsRef (tick height r1 r2 t s).
Proof.
  intros Hrun.
  destruct (tick_itemsRef height r1 r2 t s Hrun) as (Hi & Hi' & _).
  rewrite Hi, Hi'.
  assert (Hlen : (length (filter (kept height (laneRef s) (frameDistance t s))
                                 (itemsRef s))
                  <= length (itemsRef s))%nat) by apply filter_length_le.
  destruct (trySpawnItem_cases r1 r2 t (tickUpdate height t s))
    as [[_ ->] | (_ & _ & -> & -> & _)]; simpl; rewrite sweep_updatedItems.
  - split; [left; reflexivity |]. rewrite length_map. split; [lia | reflexivity].
  - split; [right; reflexivity |].
    rewrite length_app, length_map. simpl. split; [lia | reflexivity].
Qed.

(** X8 on the crash frame of [openingRun]: nothing is kept and one item
    is spawned. *)
Lemma X8_frame_rebuilds_item_list_witness :
  (length (itemsRef (tick 800 0.5 0.5 2800 openingRun))
   <= length (itemsRef openingRun) + 1)%nat.
Proof.
  apply (X8_frame_rebuilds_item_list 800 0.5 0.5 2800 openingRun).
  reflexivity.
Defined.

(** ** Speed and display *)

Lemma tick_elapsed (height r1 r2 t : Q) (s : State) :
  gameState s = running ->
  elapsedRef (tick height r1 r2 t s) = elapsedRef s + frameDelta t s.
Proof.
  intros Hrun. rewrite (tick_running _ _ _ _ _ Hrun).
  pose proof (trySpawnItem_frame r1 r2 t (tickUpdate height t s)) as F.
  cbv zeta in F. destruct F as (_ & _ & _ & _ & _ & _ & _ & _ & He & _).
  destruct (hitObstacle (sweep height t s)); simpl; rewrite He; reflexivity.
Qed.

Lemma round_near (x : Q) :
  inject_Z (JS.round x) - (1 # 2) <= x /\ x < inject_Z (JS.round x) + (1 # 2).
Proof.
  unfold JS.round.
  pose proof (Qfloor_le (x + (1 # 2))) as Hlo.
  pose proof (Qlt_floor (x + (1 # 2))) as Hhi.
  rewrite inject_Z_plus in Hhi. change (inject_Z 1) with 1 in Hhi.
  split; lra.
Qed.

(** X10: what is drawn is what is simulated.  In every reachable state
    the item list, the lane and the score held by the [useState] cells
    are those of the [useRef] cells, and the speed shown is the
    simulated speed rounded: it is off by at most a half. *)
Theorem X10_display_follows_simulation (height : Q) (s : State) :
  reachable height s ->
  items s = itemsRef s
  /\ laneIndex s = laneRef s
  /\ score s = scoreRef s
  /\ inject_Z (speed s) - (1 # 2) <= speedRef s
  /\ speedRef s < inject_Z (speed s) + (1 # 2).
Proof.
  intros Hreach.
  destruct (reachable_synced height s Hreach) as (Hi & Hl & Hsc & Hsp).
  rewrite Hsp. pose proof (round_near (speedRef s)). tauto.
Qed.

(** X10 on the frame 50 ms after the opening one: simulated speed
    360.5, shown as 361. *)
Lemma X10_display_follows_simulation_witness :
  speed (tick 800 0.5 0.5 1050 openingRun) = 361%Z
  /\ speedRef (tick 800 0.5 0.5 1050 openingRun)
     < inject_Z (speed (tick 800 0.5 0.5 1050 openingRun)) + (1 # 2).
Proof.
  split; [reflexivity |].
  apply (X10_display_follows_simulation 800
           (tick 800 0.5 0.5 1050 openingRun)).
  exact (reachable_step 800 openingRun (Frame 0.5 0.5 1050)
           openingRun_reachable).
Defined.

(** ** The first frame of a run *)

Lemma floor_zero (x : Q) : x == 0 -> JS.floor x = 0%Z.
Proof.
  intros E. unfold JS.floor. rewrite (Qfloor_comp _ _ E). reflexivity.
Qed.

Lemma frameDelta_first (t : Q) (s : State) :
  frameDelta t (startGame s) == 0.
Proof.
  unfold frameDelta. simpl lastTimeRef.
  change (JS.truthy 0) with false. cbv iota.
  assert (Hdiv : forall x : Q, x / 1000 == x * (1 # 1000))
    by (intros x; reflexivity).
  rewrite Hdiv. ring.
Qed.

(** X11: the first frame after a start only sets the clock.  Whatever
    its timestamp [t], it measures a [delta] of 0: the run is still on,
    the score is 0, the speed is [BASE_SPEED], no time has elapsed and
    [lastTimeRef] is [t].  It spawns the first item if and only if
    [t] is at least [SPAWN_MAX] ms. *)
Theorem X11_first_frame_sets_the_clock
    (height r1 r2 t : Q) (s : State) :
  gameState (tick height r1 r2 t (startGame s)) = running
  /\ scoreRef (tick height r1 r2 t (startGame s)) = 0%Z
  /\ speedRef (tick height r1 r2 t (startGame s)) == inject_Z BASE_SPEED
  /\ speed (tick height r1 r2 t (startGame s)) = BASE_SPEED
  /\ elapsedRef (tick height r1 r2 t (startGame s)) == 0
  /\ lastTimeRef (tick height r1 r2 t (startGame s)) = t
  /\ (t < inject_Z SPAWN_MAX ->
      itemsRef (tick height r1 r2 t (startGame s)) = []
      /\ lastSpawnRef (tick height r1 r2 t (startGame s)) = 0)
  /\ (inject_Z SPAWN_MAX <= t ->
      itemsRef (tick height r1 r2 t (startGame s))
      = [ {| id := nextIdRef s; type := spawnType r2; lane := spawnLane r1;
             y := - ITEM_HEIGHT |} ]
      /\ lastSpawnRef (tick height r1 r2 t (startGame s)) = t).
Proof.
  assert (Hrun : gameState (startGame s) = running) by reflexivity.
  pose proof (frameDelta_first t s) as Hd.
  assert (Hflag : hitObstacle (sweep height t (startGame s)) = false)
    by (rewrite sweep_hitObstacle; reflexivity).
  assert (Hspeed : nextSpeed t (startGame s) == inject_Z BASE_SPEED).
  { unfold nextSpeed, SPEED_RAMP. simpl speedRef. rewrite Hd. ring. }
  assert (Hint : spawnInterval (tickUpdate height t (startGame s))
                 = SPAWN_MAX).
  { unfold spawnInterval. simpl elapsedRef.
    rewrite floor_zero; [reflexivity |]. rewrite Hd. ring. }
  assert (Hsoon : spawnTooSoon t (tickUpdate height t (startGame s))
                  = JS.ltb (t - 0) (inject_Z SPAWN_MAX)).
  { unfold spawnTooSoon. rewrite Hint. reflexivity. }
  assert (Hnone : itemsRef (tickUpdate height t (startGame s)) = [])
    by reflexivity.
  destruct (tick_score height r1 r2 t _ Hrun) as (E1 & _ & E3 & E4 & E5).
  destruct (tick_itemsRef height r1 r2 t _ Hrun) as (Hi & _ & Hl & _).
  split; [rewrite (tick_gameState _ _ _ _ _ Hrun), Hflag; reflexivity |].
  split.
  { rewrite E1, frameScore_eq. simpl scoreRef.
    rewrite floor_zero; [reflexivity |]. rewrite Hd. ring. }
  split; [rewrite E3; exact Hspeed |].
  split.
  { rewrite E4. unfold JS.round.
    assert (E : nextSpeed t (startGame s) + (1 # 2)
                == inject_Z BASE_SPEED + (1 # 2)) by (rewrite Hspeed; ring).
    rewrite (Qfloor_comp _ _ E). reflexivity. }
  split.
  { rewrite (tick_elapsed _ _ _ _ _ Hrun). simpl elapsedRef. rewrite Hd. ring. }
  split; [exact E5 |].
  rewrite Hi, Hl.
  destruct (trySpawnItem_cases r1 r2 t (tickUpdate height t (startGame s)))
    as [[[Hs | Hb] Hsame] | (Hs & _ & Hits & _ & Hlast & _)].
  - rewrite Hsame. rewrite Hsoon in Hs. apply ltb_lt in Hs. split.
    + intros _. split; reflexivity.
    + intros Hge. exfalso. lra.
  - exfalso. rewrite Hnone in Hb. discriminate.
  - rewrite Hits, Hlast. rewrite Hsoon in Hs. apply ltb_ge in Hs. split.
    + intros Hlt. exfalso. lra.
    + intros _. split; [| reflexivity]. rewrite Hnone. reflexivity.
Qed.

(** X11 with first frames at 500 ms and at 1000 ms. *)
Lemma X11_first_frame_sets_the_clock_witness :
  itemsRef (tick 800 0.5 0.5 500 (startGame initialState)) = []
  /\ map id (itemsRef (tick 800 0.5 0.5 1000 (startGame initialState)))
     = [1%Z].
Proof.
  destruct (X11_first_frame_sets_the_clock 800 0.5 0.5 500 initialState)
    as (_ & _ & _ & _ & _ & _ & Hearly & _).
  destruct (X11_first_frame_sets_the_clock 800 0.5 0.5 1000 initialState)
    as (_ & _ & _ & _ & _ & _ & _ & Hlate).
  split.
  - apply Hearly. by_evaluation.
  - destruct Hlate as [-> _]; [by_evaluation | reflexivity].
Defined.

(** ** Bounds kept by a run *)

(** X12: in a run whose frames carry non-decreasing timestamps the
    simulation stays within bounds at every point: the speed is at
    least [BASE_SPEED], the elapsed time and the score are not
    negative, and no item is above the spawn line [y = - ITEM_HEIGHT]:
    items only move down. *)
Theorem X12_run_stays_within_bounds
    (height : Q) (s0 : State) (evs : list Event) :
  singleRun evs ->
  Sorted Qle (timestamps evs) ->
  inject_Z BASE_SPEED <= speedRef (play height evs (startGame s0))
  /\ 0 <= elapsedRef (play height evs (startGame s0))
  /\ (0 <= scoreRef (play height evs (startGame s0)))%Z
  /\ Forall (fun it => - ITEM_HEIGHT <= y it)
            (itemsRef (play height evs (startGame s0))).
Proof.
  intros Hrun Hsorted.
  apply Sorted_StronglySorted in Hsorted;
    [| intros a b c; apply Qle_trans].
  rewrite <- (app_nil_r evs) in Hsorted.
  assert (Hclock : clock_ok (startGame s0) (evs ++ []))
    by (left; reflexivity).
  assert (Hsync : synced (startGame s0)) by (repeat split; reflexivity).
  destruct (play_run_inv height evs [] (startGame s0) Hrun Hsorted Hclock
              Hsync (run_inv_startGame s0))
    as (Hspeed & Helapsed & Hscore & Hitems).
  split; [exact Hspeed |]. split; [exact Helapsed |]. split; [exact Hscore |].
  destruct Hitems as [[_ ->] | (_ & Hle & Hall)]; [constructor |].
  eapply Forall_impl; [| exact Hall]. intros it Hit. simpl in *. lra.
Qed.

(** X12 on a run of three frames and a lane command. *)
Lemma X12_run_stays_within_bounds_witness :
  inject_Z BASE_SPEED
  <= speedRef
       (play 800
          [Frame 0.5 0.5 1000; MoveRight; Frame 0.5 0.5 1500;
           Frame 0.5 0.5 2000]
          (startGame initialState)).
Proof.
  apply (X12_run_stays_within_bounds 800 initialState
           [Frame 0.5 0.5 1000; MoveRight; Frame 0.5 0.5 1500;
            Frame 0.5 0.5 2000]).
  - repeat constructor.
  - simpl. repeat (constructor; try by_evaluation).
Defined.

(** X13: in a run whose frames carry non-decreasing timestamps, the
    lane test of the spawn scheduler never rejects.  By the time an
    attempt is due, [SPAWN_MIN] ms or more after the last spawn, every
    item has scrolled at least 129.6 units from the spawn line and is
    below the line [ITEM_HEIGHT * 1.6]; so every due attempt of a
    running frame appends its item, whatever lane is drawn. *)
Theorem X13_due_spawn_is_never_rejected
    (height : Q) (s0 : State) (before : list Event) (r1 r2 t : Q) :
  singleRun before ->
  Sorted Qle (timestamps (before ++ [Frame r1 r2 t])) ->
  gameState (play height before (startGame s0)) = running ->
  spawnTooSoon t (tickUpdate height t (play height before (startGame s0)))
  = false ->
  laneBlocked
    (itemsRef (tickUpdate height t (play height before (startGame s0))))
    (spawnLane r1) = false
  /\ itemsRef (tick height r1 r2 t (play height before (startGame s0)))
     = itemsRef (tickUpdate height t (play height before (startGame s0)))
       ++ [spawnedItem r1 r2
             (tickUpdate height t (play height before (startGame s0)))]
  /\ lastSpawnRef (tick height r1 r2 t (play height before (startGame s0)))
     = t.
Proof.
  intros Hrun Hsorted Hplaying Hdue.
  apply Sorted_StronglySorted in Hsorted;
    [| intros a b c; apply Qle_trans].
  assert (Hclock : clock_ok (startGame s0) (before ++ [Frame r1 r2 t]))
    by (left; reflexivity).
  assert (Hsync : synced (startGame s0)) by (repeat split; reflexivity).
  pose proof (play_run_inv height before [Frame r1 r2 t] (startGame s0)
                Hrun Hsorted Hclock Hsync (run_inv_startGame s0)) as Hinv.
  destruct (play_run height before [Frame r1 r2 t] (startGame s0)
              Hrun Hsorted Hclock Hsync) as (_ & Hclock' & _).
  assert (Hnow : lastTimeRef (play height before (startGame s0)) == 0
                 \/ lastTimeRef (play height before (startGame s0)) <= t).
  { destruct Hclock' as [H0 | Hall]; [left; exact H0 | right].
    simpl in Hall. inversion Hall; assumption. }
  destruct (tick_run_inv height r1 r2 t _ Hinv Hnow) as (_ & Hfree).
  specialize (Hfree Hplaying Hdue).
  split; [exact Hfree |].
  destruct (tick_itemsRef height r1 r2 t _ Hplaying) as (-> & _ & -> & _).
  destruct (trySpawnItem_cases r1 r2 t
              (tickUpdate height t (play height before (startGame s0))))
    as [[[H | H] _] | (_ & _ & Hits & _ & Hlast & _)]; try congruence.
  split; assumption.
Qed.

(** X13 on the second spawn of a run: due at 2000 ms, in the lane of
    the first item, which is by then at [y = 326]. *)
Lemma X13_due_spawn_is_never_rejected_witness :
  map id (itemsRef (tick 800 0.5 0.5 2000
                      (play 800 [Frame 0.5 0.5 1000]
                         (startGame initialState))))
  = [1%Z; 2%Z].
Proof.
  destruct (X13_due_spawn_is_never_rejected 800 initialState
              [Frame 0.5 0.5 1000] 0.5 0.5 2000) as (_ & -> & _).
  - repeat constructor.
  - simpl. repeat (constructor; try by_evaluation).
  - reflexivity.
  - reflexivity.
  - reflexivity.
Defined.

(** ** Gestures and lane commands *)

(** X14: releasing a swipe moves the car by one lane at most, and only
    the car.  A release with [dx] beyond 40 to the right is a move to
    the right, beyond 40 to the left a move to the left, clamped at the
    edges; a release with [dx] from -40 to 40 changes nothing; [dy]
    plays no part.  From a reachable state the lane stays on the
    road. *)
Theorem X14_swipe_moves_one_lane (height : Q) (g : Gesture) (s : State) :
  reachable height s ->
  same_but_lane s (onPanResponderRelease g s)
  /\ (0 <= laneIndex (onPanResponderRelease g s) <= LANES - 1)%Z
  /\ laneRef (onPanResponderRelease g s)
     = laneIndex (onPanResponderRelease g s)
  /\ (40 < dx g ->
      laneIndex (onPanResponderRelease g s)
      = Z.min (LANES - 1) (laneIndex s + 1))
  /\ (dx g < -40 ->
      laneIndex (onPanResponderRelease g s) = Z.max 0 (laneIndex s - 1))
  /\ (-40 <= dx g -> dx g <= 40 -> onPanResponderRelease g s = s).
Proof.
  intros Hreach.
  destruct (reachable_lane height s Hreach) as [Hrange Href].
  unfold onPanResponderRelease, LANES in *.
  destruct (JS.gtb (dx g) 40) eqn:Eright.
  - apply gtb_gt in Eright.
    unfold moveRight, updateLane, clamp, LANES. cbn [laneIndex laneRef].
    split; [repeat split |]. split; [lia |]. split; [reflexivity |].
    split; [intros _; lia |]. split; intros; exfalso; lra.
  - apply gtb_le in Eright.
    destruct (JS.ltb (dx g) (-40)) eqn:Eleft.
    + apply ltb_lt in Eleft.
      unfold moveLeft, updateLane, clamp, LANES. cbn [laneIndex laneRef].
      split; [repeat split |]. split; [lia |]. split; [reflexivity |].
      split; [intros; exfalso; lra |].
      split; [intros _; lia | intros; exfalso; lra].
    + apply ltb_ge in Eleft.
      split; [apply same_but_lane_refl |]. split; [lia |].
      split; [exact Href |].
      split; [intros; exfalso; lra |].
      split; [intros; exfalso; lra | reflexivity].
Qed.

(** X14 at the start of a run: a swipe of 60 to the right takes the car
    from lane 1 to lane 2. *)
Lemma X14_swipe_moves_one_lane_witness :
  laneIndex (onPanResponderRelease (mkGesture 60 5) (startGame initialState))
  = 2%Z.
Proof.
  destruct (X14_swipe_moves_one_lane 800 (mkGesture 60 5)
              (startGame initialState)
              (reachable_step 800 initialState Start (reachable_init 800)))
    as (_ & _ & _ & Hright & _).
  rewrite Hright; [reflexivity | by_evaluation].
Defined.

(** X15: away from the edges a move is undone by the opposite move.  In
    a reachable state, right then left gives the state back unless the
    car is in the last lane, where right does nothing and the car ends
    one lane to the left; and likewise left then right, unless the car
    is in lane 0. *)
Theorem X15_opposite_moves_cancel (height : Q) (s : State) :
  reachable height s ->
  ((laneIndex s < LANES - 1)%Z -> moveLeft (moveRight s) = s)
  /\ ((0 < laneIndex s)%Z -> moveRight (moveLeft s) = s)
  /\ (laneIndex s = (LANES - 1)%Z -> moveLeft (moveRight s) = moveLeft s)
  /\ (laneIndex s = 0%Z -> moveRight (moveLeft s) = moveRight s).
Proof.
  intros Hreach.
  destruct (reachable_lane height s Hreach) as [Hrange Href].
  clear Hreach. destruct s as [g li it sc hs sp itr lr scr spr el ls lt nx].
  unfold moveLeft, moveRight, updateLane, clamp, LANES in *.
  cbn [laneIndex laneRef gameState items score highScore speed itemsRef
       scoreRef speedRef elapsedRef lastSpawnRef lastTimeRef nextIdRef] in *.
  subst lr.
  repeat split; intros H; f_equal; lia.
Qed.

(** X15 at the start of a run, car in lane 1. *)
Lemma X15_opposite_moves_cancel_witness :
  moveLeft (moveRight (startGame initialState)) = startGame initialState.
Proof.
  apply (X15_opposite_moves_cancel 800 (startGame initialState)
           (reachable_step 800 initialState Start (reachable_init 800))).
  vm_compute. reflexivity.
Defined.

(** ** Layout *)

Lemma roadWidth_bounds (width : Q) :
  roadWidth width <= 360 /\ roadWidth width <= width * 0.82
  /\ (forall m, m <= 360 -> m <= width * 0.82 -> m <= roadWidth width).
Proof.
  unfold roadWidth. split; [apply Q.le_min_l |].
  split; [apply Q.le_min_r |].
  intros m H1 H2. apply Q.min_glb; assumption.
Qed.

Lemma laneWidth_val (width : Q) :
  laneWidth width == roadWidth width * (1 # 3).
Proof. unfold laneWidth, LANES. reflexivity. Qed.

Lemma roadLeft_val (width : Q) :
  roadLeft width == (width - roadWidth width) * (1 # 2).
Proof. unfold roadLeft. reflexivity. Qed.

Lemma itemLeft_val (width : Q) (ln : Z) :
  itemLeft width ln
  == roadLeft width + inject_Z ln * laneWidth width
     + (laneWidth width - 30) * (1 # 2).
Proof. unfold itemLeft, ITEM_WIDTH. reflexivity. Qed.

Lemma carLeft_val (width : Q) (ln : Z) :
  carLeft width ln
  == roadLeft width + inject_Z ln * laneWidth width
     + (laneWidth width - 34) * (1 # 2).
Proof. unfold carLeft, CAR_WIDTH. reflexivity. Qed.

(** Lanes further apart are drawn further apart. *)
Lemma lane_step (L : Q) (a b : Z) :
  0 <= L -> (a < b)%Z -> inject_Z a * L + L <= inject_Z b * L.
Proof.
  intros HL Hab.
  assert (H : inject_Z (a + 1) <= inject_Z b) by (rewrite <- Zle_Qle; lia).
  rewrite inject_Z_plus in H. change (inject_Z 1) with 1 in H.
  apply (Qmult_le_compat_r _ _ L) in H; [| exact HL]. lra.
Qed.

(** X16: the collision test by lane agrees with the picture.  On a
    window at least [4800 / 41] (about 117.1) wide, where a lane is at
    least 32 wide, the box drawn for an item and the box drawn for the
    car share some horizontal extent exactly when the item's lane is
    the car's lane. *)
Theorem X16_same_lane_iff_boxes_overlap (width : Q) (a b : Z) :
  4800 # 41 <= width ->
  (drawnOverlap width a b <-> a = b).
Proof.
  intros Hwide.
  destruct (roadWidth_bounds width) as (_ & _ & Hglb).
  assert (Hroad : 96 <= roadWidth width) by (apply Hglb; lra).
  pose proof (laneWidth_val width) as HL.
  assert (HL32 : 32 <= laneWidth width) by lra.
  pose proof (itemLeft_val width a) as Hi.
  pose proof (carLeft_val width b) as Hc.
  unfold drawnOverlap, CAR_WIDTH, ITEM_WIDTH. split.
  - intros [H1 H2].
    destruct (Z.lt_trichotomy a b) as [Hlt | [Heq | Hgt]]; [| exact Heq |].
    + exfalso.
      pose proof (lane_step (laneWidth width) a b) as Hs.
      assert (H0 : 0 <= laneWidth width) by lra.
      specialize (Hs H0 Hlt). lra.
    + exfalso.
      pose proof (lane_step (laneWidth width) b a) as Hs.
      assert (H0 : 0 <= laneWidth width) by lra.
      specialize (Hs H0 (Z.gt_lt _ _ (Z.lt_gt _ _ Hgt))). lra.
  - intros ->. pose proof (itemLeft_val width b) as Hi'. split; lra.
Qed.

(** X16 on a window 400 wide. *)
Lemma X16_same_lane_iff_boxes_overlap_witness :
  drawnOverlap 400 1 1 /\ ~ drawnOverlap 400 0 1.
Proof.
  assert (Hwide : 4800 # 41 <= 400) by by_evaluation.
  split.
  - apply (X16_same_lane_iff_boxes_overlap 400 1 1 Hwide). reflexivity.
  - intros H.
    apply (X16_same_lane_iff_boxes_overlap 400 0 1 Hwide) in H.
    discriminate.
Defined.

(** ** The frame that ends the run *)

(** X18: the score is settled before the run ends.  In the frame in
    which an obstacle reaches the car, the coins that reach the car in
    that same frame and the survival bonus are added to the score
    first, and the high score is then taken against that final score;
    items hit are not drawn again. *)
Theorem X18_crash_frame_settles_score
    (height r1 r2 t : Q) (s : State) (o : Item) :
  gameState s = running ->
  In o (itemsRef s) ->
  fatal height (laneRef s) (frameDistance t s) o = true ->
  gameState (tick height r1 r2 t s) = gameover
  /\ scoreRef (tick height r1 r2 t s)
     = (scoreRef s + 120 * Z.of_nat (length (coinsCollected height t s))
        + JS.floor (frameDelta t s * 30))%Z
  /\ highScore (tick height r1 r2 t s)
     = Z.max (highScore s)
         (scoreRef s + 120 * Z.of_nat (length (coinsCollected height t s))
          + JS.floor (frameDelta t s * 30))
  /\ forall c, In c (coinsCollected height t s) ->
               ~ In (advance (frameDistance t s) c)
                    (updatedItems (sweep height t s)).
Proof.
  intros Hrun Hin Hfatal.
  assert (Hhit : hitObstacle (sweep height t s) = true).
  { rewrite sweep_hitObstacle. apply existsb_exists. exists o. auto. }
  destruct (tick_score height r1 r2 t s Hrun) as (Hsr & _).
  split; [rewrite (tick_gameState _ _ _ _ _ Hrun), Hhit; reflexivity |].
  split; [rewrite Hsr; apply frameScore_eq |].
  split.
  - rewrite (tick_running _ _ _ _ _ Hrun), Hhit.
    pose proof (trySpawnItem_frame r1 r2 t (tickUpdate height t s)) as F.
    cbv zeta in F. destruct F as (_ & _ & _ & _ & Hscr & Hhs & _).
    simpl highScore. rewrite Hscr, Hhs. simpl. rewrite frameScore_eq.
    reflexivity.
  - intros c Hc Hkept. rewrite sweep_updatedItems in Hkept.
    apply in_map_iff in Hkept. destruct Hkept as (x & Hx & Hxin).
    apply filter_In in Hxin. destruct Hxin as [_ Hk].
    apply filter_In in Hc. destruct Hc as [_ Hcol].
    apply collected_iff in Hcol. destruct Hcol as [_ Htouch].
    assert (Htx : touches height (laneRef s) (frameDistance t s) x = true).
    { unfold touches in *. unfold advance in Hx.
      apply (f_equal lane) in Hx as Hlane.
      apply (f_equal y) in Hx as Hy. simpl in Hlane, Hy.
      assert (Ey : y x == y c).
      { apply Qplus_inj_r with (z := frameDistance t s).
        rewrite Hy. reflexivity. }
      rewrite Hlane.
      apply andb_true_iff in Htouch. destruct Htouch as [Hl Hb].
      apply andb_true_iff in Hb. destruct Hb as [Hb1 Hb2].
      apply gtb_gt in Hb1. apply ltb_lt in Hb2.
      rewrite Hl. simpl.
      apply andb_true_iff. split; [apply gtb_gt | apply ltb_lt]; lra. }
    rewrite (kept_touches _ _ _ _ Htx) in Hk. discriminate.
Qed.

(** X18 on the crash frame of [openingRun]. *)
Lemma X18_crash_frame_settles_score_witness :
  highScore (tick 800 0.5 0.5 2800 openingRun) = 54%Z.
Proof.
  destruct (X18_crash_frame_settles_score 800 0.5 0.5 2800 openingRun
              {| id := 1; type := obstacle; lane := 1; y := - ITEM_HEIGHT |})
    as (_ & _ & -> & _).
  - reflexivity.
  - vm_compute. left. reflexivity.
  - reflexivity.
  - reflexivity.
Defined.

(** ** Spacing of the items in a run *)

Lemma spaced_filter (f : Item -> bool) (l : list Item) :
  spaced l -> spaced (filter f l).
Proof.
  unfold spaced. induction l as [| a l IH]; simpl; intros Hs; [constructor |].
  inversion Hs as [| ? ? Hrest Hall]; subst.
  destruct (f a); [| auto].
  constructor; [auto |].
  rewrite Forall_forall in *. intros x Hx. apply Hall.
  apply filter_In in Hx. tauto.
Qed.

Lemma spaced_advance (d : Q) (l : list Item) :
  spaced l -> spaced (map (advance d) l).
Proof.
  unfold spaced. induction l as [| a l IH]; simpl; intros Hs; [constructor |].
  inversion Hs as [| ? ? Hrest Hall]; subst.
  constructor; [auto |].
  rewrite Forall_forall in *. intros x Hx.
  apply in_map_iff in Hx. destruct Hx as (b & <- & Hb).
  specialize (Hall b Hb). simpl. lra.
Qed.

Lemma spaced_snoc (l : list Item) (x : Item) :
  spaced l -> Forall (fun a => y x + SPAWN_GAP <= y a) l ->
  spaced (l ++ [x]).
Proof.
  unfold spaced. induction l as [| a l IH]; simpl; intros Hs Hall.
  - repeat constructor.
  - inversion Hs as [| ? ? Hrest Ha]; subst.
    inversion Hall as [| ? ? Hax Hall']; subst.
    constructor; [auto |].
    apply Forall_app. split; [exact Ha | repeat constructor; exact Hax].
Qed.

(** Two items of a spaced list are the same or [SPAWN_GAP] apart. *)
Lemma spaced_pair (l : list Item) (a b : Item) :
  spaced l -> In a l -> In b l ->
  a = b \/ y b + SPAWN_GAP <= y a \/ y a + SPAWN_GAP <= y b.
Proof.
  unfold spaced. induction l as [| h l IH]; simpl; intros Hs Ha Hb; [tauto |].
  inversion Hs as [| ? ? Hrest Hall]; subst.
  rewrite Forall_forall in Hall.
  destruct Ha as [-> | Ha], Hb as [-> | Hb]; auto.
Qed.

(** The head of a spaced list is a gap further down for each item
    behind it. *)
Lemma spaced_span (lo : Q) (a : Item) (l : list Item) :
  spaced (a :: l) -> Forall (fun it => lo <= y it) (a :: l) ->
  lo + SPAWN_GAP * inject_Z (Z.of_nat (length l)) <= y a.
Proof.
  unfold spaced. revert a. induction l as [| b l IH]; intros a Hs Hlo.
  - inversion Hlo; subst. simpl. change (inject_Z 0) with 0. lra.
  - inversion Hs as [| ? ? Hrest Hall]; subst.
    inversion Hlo as [| ? ? _ Hlo']; subst.
    specialize (IH b Hrest Hlo').
    inversion Hall as [| ? ? Hab _]; subst.
    cbn [length]. rewrite Nat2Z.inj_succ. unfold Z.succ.
    rewrite inject_Z_plus. change (inject_Z 1) with 1. lra.
Qed.

Lemma tick_spaced (height r1 r2 t : Q) (s : State) :
  run_inv s ->
  lastTimeRef s == 0 \/ lastTimeRef s <= t ->
  spaced (itemsRef s) ->
  spaced (itemsRef (tick height r1 r2 t s)).
Proof.
  intros Hinv Hclock Hsp.
  destruct (GameState_eq_dec (gameState s) running) as [Hrun | Hidle];
    [| rewrite (tick_idle _ _ _ _ _ Hidle); exact Hsp].
  destruct (tick_itemsRef height r1 r2 t s Hrun) as (-> & _).
  assert (Hup : spaced (itemsRef (tickUpdate height t s))).
  { simpl. rewrite sweep_updatedItems.
    apply spaced_advance, spaced_filter, Hsp. }
  destruct (trySpawnItem_cases r1 r2 t (tickUpdate height t s))
    as [[_ ->] | (Hdue & _ & -> & _)]; [exact Hup |].
  apply spaced_snoc; [exact Hup |].
  pose proof (due_items_scrolled height t s Hinv Hclock Hdue) as Hfar.
  eapply Forall_impl; [| exact Hfar]. intros it Hit. simpl in *. exact Hit.
Qed.

Lemma play_run_spaced (height : Q) (evs rest : list Event) (s : State) :
  singleRun evs ->
  StronglySorted Qle (timestamps (evs ++ rest)) ->
  clock_ok s (evs ++ rest) ->
  synced s ->
  run_inv s ->
  spaced (itemsRef s) ->
  spaced (itemsRef (play height evs s)).
Proof.
  revert s.
  induction evs as [| e evs IH];
    intros s Hrun Hsorted Hclock Hsync Hinv Hsp.
  - exact Hsp.
  - inversion Hrun as [| ? ? He Hrun']; subst.
    rewrite <- app_comm_cons in Hsorted, Hclock.
    destruct (handle_run height s e (evs ++ rest) He Hsorted Hclock Hsync)
      as (Hsorted' & Hclock' & Hsync' & _).
    simpl. destruct e as [r1 r2 t | | |]; simpl in *; try discriminate.
    + assert (Hnow : lastTimeRef s == 0 \/ lastTimeRef s <= t).
      { destruct Hclock as [H0 | Hall]; [left; exact H0 | right].
        inversion Hall; assumption. }
      apply IH; try assumption.
      * apply tick_run_inv; assumption.
      * apply tick_spaced; assumption.
    + apply IH; assumption.
    + apply IH; assumption.
Qed.

(** The items of a run with a sound clock are spaced. *)
Lemma run_spaced (height : Q) (s0 : State) (evs : list Event) :
  singleRun evs ->
  Sorted Qle (timestamps evs) ->
  spaced (itemsRef (play height evs (startGame s0))).
Proof.
  intros Hrun Hsorted.
  apply Sorted_StronglySorted in Hsorted;
    [| intros a b c; apply Qle_trans].
  rewrite <- (app_nil_r evs) in Hsorted.
  apply (play_run_spaced height evs [] (startGame s0)); try assumption.
  - left. reflexivity.
  - repeat split; reflexivity.
  - apply run_inv_startGame.
  - constructor.
Qed.

Lemma play_ordered_ids (height : Q) (evs : list Event) (s : State) :
  ordered_ids s -> ordered_ids (play height evs s).
Proof.
  revert s. induction evs as [| e evs IH]; intros s Hs; simpl; [exact Hs |].
  apply IH, handle_ordered_ids, Hs.
Qed.

(** X19: in a run whose frames carry non-decreasing timestamps, any two
    items on the road, in the same lane or not, are at least 129.6
    units apart vertically, the distance an item scrolls at
    [BASE_SPEED] in [SPAWN_MIN] ms; and the one with the smaller id,
    the older one, is the lower one. *)
Theorem X19_items_are_spaced
    (height : Q) (s0 : State) (evs : list Event) (a b : Item) :
  reachable height s0 ->
  singleRun evs ->
  Sorted Qle (timestamps evs) ->
  In a (itemsRef (play height evs (startGame s0))) ->
  In b (itemsRef (play height evs (startGame s0))) ->
  (a = b \/ y b + SPAWN_GAP <= y a \/ y a + SPAWN_GAP <= y b)
  /\ ((id a < id b)%Z -> y b + SPAWN_GAP <= y a).
Proof.
  intros Hreach Hrun Hsorted Ha Hb.
  pose proof (run_spaced height s0 evs Hrun Hsorted) as Hsp.
  split; [apply (spaced_pair _ a b Hsp Ha Hb) |].
  assert (Hord : ordered_ids (play height evs (startGame s0))).
  { apply play_ordered_ids.
    apply (handle_ordered_ids height s0 Start).
    apply (reachable_ordered_ids height), Hreach. }
  intros Hid.
  destruct Hord as (Hsorted_ids & _).
  revert Hsp Hsorted_ids Ha Hb. unfold spaced.
  induction (itemsRef (play height evs (startGame s0))) as [| h l IH];
    simpl; intros Hsp Hids Ha Hb; [tauto |].
  inversion Hsp as [| ? ? Hrest Hall]; subst.
  inversion Hids as [| ? ? Hirest Hiall]; subst.
  rewrite Forall_forall in Hall, Hiall.
  destruct Ha as [-> | Ha], Hb as [-> | Hb]; auto.
  - lia.
  - exfalso. specialize (Hiall (id a) (in_map id _ _ Ha)). lia.
Qed.

(** X19 on a run of three frames, a second apart: the two oldest
    items are at [y = 706] and [y = 336]. *)
Lemma X19_items_are_spaced_witness :
  y aheadItem == 706 /\ y behindItem == 336
  /\ y behindItem + SPAWN_GAP <= y aheadItem.
Proof.
  split; [by_evaluation |]. split; [by_evaluation |].
  apply (X19_items_are_spaced 800 initialState
           [Frame 0.5 0.5 1000; Frame 0.5 0.5 2000; Frame 0.5 0.5 3000]
           aheadItem behindItem).
  - apply reachable_init.
  - repeat constructor.
  - simpl. repeat (constructor; try by_evaluation).
  - apply nth_In. vm_compute. lia.
  - apply nth_In. vm_compute. lia.
  - reflexivity.
Defined.

Lemma filter_none (f : Item -> bool) (l : list Item) :
  (forall x, In x l -> f x = false) -> filter f l = [].
Proof.
  induction l as [| a l IH]; simpl; intros H; [reflexivity |].
  rewrite (H a (or_introl eq_refl)). apply IH. intros x Hx. apply H. auto.
Qed.

(** Of the items of a spaced list, at most one passes a test that no
    two items a gap apart can both pass. *)
Lemma spaced_filter_one (f : Item -> bool) (l : list Item) :
  spaced l ->
  (forall a b, y b + SPAWN_GAP <= y a -> f a = true -> f b = true -> False) ->
  (length (filter f l) <= 1)%nat.
Proof.
  unfold spaced. intros Hs Hex.
  induction l as [| h l IH]; simpl; [lia |].
  inversion Hs as [| ? ? Hrest Hall]; subst.
  destruct (f h) eqn:Eh; [| auto].
  rewrite filter_none; [simpl; lia |].
  rewrite Forall_forall in Hall. intros x Hx.
  destruct (f x) eqn:Ex; [| reflexivity].
  exfalso. exact (Hex h x (Hall x Hx) Eh Ex).
Qed.

(** Two items a gap apart do not both touch the car. *)
Lemma touches_exclusive (height : Q) (pl : Z) (d : Q) (a b : Item) :
  y b + SPAWN_GAP <= y a ->
  touches height pl d a = true -> touches height pl d b = true -> False.
Proof.
  intros Hgap Ha Hb.
  apply touches_iff in Ha. apply touches_iff in Hb.
  pose proof (carTop_val height). pose proof (carBottom_val height).
  unfold SPAWN_GAP, ITEM_HEIGHT in *. lra.
Qed.

(** X20: in a run whose frames carry non-decreasing timestamps, at most
    one item reaches the car in a frame.  Two items that both touch
    the car are the same item; so a frame collects at most one coin,
    and the frame in which an obstacle is hit collects none. *)
Theorem X20_one_item_reaches_the_car
    (height : Q) (s0 : State) (evs : list Event) (t : Q) :
  singleRun evs ->
  Sorted Qle (timestamps evs) ->
  (forall a b,
     In a (itemsRef (play height evs (startGame s0))) ->
     In b (itemsRef (play height evs (startGame s0))) ->
     touches height (laneRef (play height evs (startGame s0)))
       (frameDistance t (play height evs (startGame s0))) a = true ->
     touches height (laneRef (play height evs (startGame s0)))
       (frameDistance t (play height evs (startGame s0))) b = true ->
     a = b)
  /\ (length (coinsCollected height t (play height evs (startGame s0)))
      <= 1)%nat
  /\ (hitObstacle (sweep height t (play height evs (startGame s0))) = true ->
      coinsCollected height t (play height evs (startGame s0)) = []).
Proof.
  intros Hrun Hsorted.
  pose proof (run_spaced height s0 evs Hrun Hsorted) as Hsp.
  set (s := play height evs (startGame s0)) in *.
  assert (Hone : forall a b,
            In a (itemsRef s) -> In b (itemsRef s) ->
            touches height (laneRef s) (frameDistance t s) a = true ->
            touches height (laneRef s) (frameDistance t s) b = true ->
            a = b).
  { intros a b Ha Hb Hta Htb.
    destruct (spaced_pair _ a b Hsp Ha Hb) as [E | [Hgap | Hgap]];
      [exact E | exfalso | exfalso].
    - exact (touches_exclusive _ _ _ _ _ Hgap Hta Htb).
    - exact (touches_exclusive _ _ _ _ _ Hgap Htb Hta). }
  split; [exact Hone |]. split.
  - unfold coinsCollected. apply spaced_filter_one; [exact Hsp |].
    intros a b Hgap Ha Hb.
    apply collected_iff in Ha. apply collected_iff in Hb.
    exact (touches_exclusive _ _ _ _ _ Hgap (proj2 Ha) (proj2 Hb)).
  - intros Hhit. rewrite sweep_hitObstacle in Hhit.
    apply existsb_exists in Hhit. destruct Hhit as (o & Ho & Hfatal).
    apply fatal_iff in Hfatal. destruct Hfatal as [Hob Hto].
    unfold coinsCollected. apply filter_none. intros c Hc.
    destruct (collected height (laneRef s) (frameDistance t s) c) eqn:E;
      [| reflexivity].
    apply collected_iff in E. destruct E as [Hcoin Htc].
    pose proof (Hone o c Ho Hc Hto Htc) as Heq. subst c. congruence.
Qed.

(** X20 on [threeFrameRun], for a frame at 3016 ms. *)
Lemma X20_one_item_reaches_the_car_witness :
  (length (coinsCollected 800 3016 threeFrameRun) <= 1)%nat.
Proof.
  apply (X20_one_item_reaches_the_car 800 initialState
           [Frame 0.5 0.5 1000; Frame 0.5 0.5 2000; Frame 0.5 0.5 3000]
           3016).
  - repeat constructor.
  - simpl. repeat (constructor; try by_evaluation).
Defined.

Lemma play_onscreen (height : Q) (evs : list Event) (s : State) :
  0 <= height ->
  Forall (fun it => y it <= height + ITEM_HEIGHT) (itemsRef s) ->
  Forall (fun it => y it <= height + ITEM_HEIGHT)
         (itemsRef (play height evs s)).
Proof.
  intros Hh. revert s. induction evs as [| e evs IH]; intros s Hs; simpl;
    [exact Hs |].
  apply IH. destruct e as [r1 r2 t | | |]; simpl; try exact Hs.
  - apply tick_onscreen; assumption.
  - constructor.
Qed.

(** X21: the number of items on the road is bounded by the height of
    the window.  In a run whose frames carry non-decreasing timestamps,
    on a window of height 0 or more, [n] items need
    [n * 129.6 <= height + 2 * ITEM_HEIGHT + 129.6]: at most 7 items on
    a window 800 high. *)
Theorem X21_item_count_is_bounded
    (height : Q) (s0 : State) (evs : list Event) :
  0 <= height ->
  singleRun evs ->
  Sorted Qle (timestamps evs) ->
  inject_Z (Z.of_nat (length (itemsRef (play height evs (startGame s0)))))
  * SPAWN_GAP
  <= height + 2 * ITEM_HEIGHT + SPAWN_GAP.
Proof.
  intros Hh Hrun Hsorted.
  pose proof (run_spaced height s0 evs Hrun Hsorted) as Hsp.
  assert (Hhi : Forall (fun it => y it <= height + ITEM_HEIGHT)
                       (itemsRef (play height evs (startGame s0))))
    by (apply play_onscreen; [exact Hh | constructor]).
  assert (Hlo : Forall (fun it => - ITEM_HEIGHT <= y it)
                       (itemsRef (play height evs (startGame s0)))).
  { apply Sorted_StronglySorted in Hsorted;
      [| intros a b c; apply Qle_trans].
    rewrite <- (app_nil_r evs) in Hsorted.
    assert (Hclock : clock_ok (startGame s0) (evs ++ []))
      by (left; reflexivity).
    assert (Hsync : synced (startGame s0)) by (repeat split; reflexivity).
    destruct (play_run_inv height evs [] (startGame s0) Hrun Hsorted Hclock
                Hsync (run_inv_startGame s0))
      as (_ & _ & _ & Hitems).
    destruct Hitems as [[_ ->] | (_ & Hle & Hall)]; [constructor |].
    eapply Forall_impl; [| exact Hall]. intros it Hit. simpl in *. lra. }
  destruct (itemsRef (play height evs (startGame s0))) as [| a l].
  - simpl. change (inject_Z 0) with 0. unfold ITEM_HEIGHT, SPAWN_GAP. lra.
  - pose proof (spaced_span (- ITEM_HEIGHT) a l Hsp Hlo) as Hspan.
    inversion Hhi as [| ? ? Ha _]; subst.
    cbn [length]. rewrite Nat2Z.inj_succ. unfold Z.succ.
    rewrite inject_Z_plus. change (inject_Z 1) with 1.
    unfold ITEM_HEIGHT, SPAWN_GAP in *. lra.
Qed.

(** X21 on [threeFrameRun]: three items, on a window 800 high. *)
Lemma X21_item_count_is_bounded_witness :
  length (itemsRef threeFrameRun) = 3%nat
  /\ inject_Z (Z.of_nat (length (itemsRef threeFrameRun))) * SPAWN_GAP
     <= 800 + 2 * ITEM_HEIGHT + SPAWN_GAP.
Proof.
  split; [reflexivity |].
  apply (X21_item_count_is_bounded 800 initialState
           [Frame 0.5 0.5 1000; Frame 0.5 0.5 2000; Frame 0.5 0.5 3000]).
  - by_evaluation.
  - repeat constructor.
  - simpl. repeat (constructor; try by_evaluation).
Defined.

(** ** The helper [clamp] *)

(** X22: with [min <= max], [clamp] returns the value of the range from
    [min] to [max] nearest to its argument: the argument itself when it
    is in the range, the bound it lies beyond otherwise.  Clamping twice
    is clamping once, and [clamp] keeps the order of its arguments. *)
Theorem X22_clamp_is_a_projection (v w lo hi : Z) :
  (lo <= hi)%Z ->
  (lo <= clamp v lo hi <= hi)%Z
  /\ ((lo <= v <= hi)%Z <-> clamp v lo hi = v)
  /\ ((v < lo)%Z -> clamp v lo hi = lo)
  /\ ((hi < v)%Z -> clamp v lo hi = hi)
  /\ clamp (clamp v lo hi) lo hi = clamp v lo hi
  /\ ((v <= w)%Z -> (clamp v lo hi <= clamp w lo hi)%Z).
Proof.
  unfold clamp. intros H. repeat split; intros; lia.
Qed.

(** X22 on the lanes: 3 is clamped to 2, -1 to 0. *)
Lemma X22_clamp_is_a_projection_witness :
  clamp 3 0 (LANES - 1) = 2%Z /\ clamp (-1) 0 (LANES - 1) = 0%Z
  /\ (0 <= clamp 7 0 (LANES - 1) <= LANES - 1)%Z.
Proof.
  split; [reflexivity |]. split; [reflexivity |].
  apply (X22_clamp_is_a_projection 7 7 0 (LANES - 1)). vm_compute.
  discriminate.
Defined.
